(** * Human-Activity-Detection: the activity classifier of [src/App.tsx]

    A shallow embedding of the classification core of the React component
    [App]: the geometric helpers [calculateAngle] and [calculateDistance],
    the motion detectors [isMoving] and [isWaving], the rule chain
    [determineActivity] and the per-tick driver [detectPose] together with
    the two history buffers it maintains.

    JavaScript numbers are IEEE-754 binary64 values; they are embedded as
    Rocq's primitive floats, whose operations ([+], [-], [*], [/], [abs],
    [<?], ...) are the same binary64 operations, NaN and signed zeros
    included.  The host functions [Math.atan2], [Math.pow] and [Math.sqrt]
    are only specified up to an implementation-chosen approximation by the
    language standard, so the embedding takes them as an interface
    ([MathLib]); a reference instance makes every definition executable. *)

From Stdlib Require Import List String Bool Arith ZArith Lia.
From Stdlib Require Import Floats.
From Stdlib Require Uint63.
Import ListNotations.

Set Implicit Arguments.

Local Open Scope string_scope.
Local Open Scope list_scope.
Local Open Scope float_scope.

(** ** JavaScript runtime: numbers, [Math], arrays *)

Module JS.

(** [Math.PI]: the binary64 value nearest to pi (3.141592653589793). *)
Definition Math_PI : float := 0x1.921fb54442d18p+1.

(** The three [Math] functions the program calls besides [Math.abs]
    (which is exact and is [PrimFloat.abs]). *)
Class MathLib : Type := {
  Math_atan2 : float -> float -> float;
  Math_pow : float -> float -> float;
  Math_sqrt : float -> float
}.

(** The [length] of an array as a JavaScript number. *)
Definition num_of_nat (n : nat) : float :=
  PrimFloat.of_uint63 (Uint63.of_Z (Z.of_nat n)).

(** [a > b] on numbers is [b < a]; false as soon as one side is NaN. *)
Definition gtb (a b : float) : bool := (b <? a)%float.

(** [arr.slice(start)]: a negative [start] counts from the end, and the
    resulting index is clamped to [0 .. length]. *)
Definition Array_slice {A : Type} (start : Z) (arr : list A) : list A :=
  let len := Z.of_nat (List.length arr) in
  let k := if (start <? 0)%Z then Z.max (len + start) 0 else Z.min start len in
  skipn (Z.to_nat k) arr.

(** [arr.find(pred)]: the first element satisfying [pred], or
    [undefined]. *)
Definition Array_find {A : Type} (pred : A -> bool) (arr : list A) : option A :=
  List.find pred arr.

(** [arr.map((elem, idx, arr) => ...)]. *)
Fixpoint map_from {A B : Type} (f : A -> nat -> list A -> B)
    (whole : list A) (idx : nat) (rest : list A) : list B :=
  match rest with
  | [] => []
  | elem :: rest' => f elem idx whole :: map_from f whole (S idx) rest'
  end.

Definition Array_map {A B : Type} (f : A -> nat -> list A -> B)
    (arr : list A) : list B :=
  map_from f arr 0%nat arr.

(** [arr.reduce((acc, elem, idx, arr) => ..., init)]. *)
Fixpoint reduce_from {A B : Type} (f : B -> A -> nat -> list A -> B)
    (whole : list A) (idx : nat) (rest : list A) (acc : B) : B :=
  match rest with
  | [] => acc
  | elem :: rest' => reduce_from f whole (S idx) rest' (f acc elem idx whole)
  end.

Definition Array_reduce {A B : Type} (f : B -> A -> nat -> list A -> B)
    (init : B) (arr : list A) : B :=
  reduce_from f arr 0%nat arr init.

End JS.

Import JS.

(** ** Data model *)

(** [poseDetection.Keypoint]: [x] and [y] are mandatory, [score] and
    [name] are optional fields. *)
Record Keypoint : Type := mkKeypoint {
  kp_x : float;
  kp_y : float;
  kp_score : option float;
  kp_name : option string
}.

(** [poseDetection.Pose]. *)
Record Pose : Type := mkPose {
  pose_keypoints : list Keypoint;
  pose_score : option float
}.

(** An entry of [previousPositions]. *)
Record Position : Type := mkPosition {
  pos_x : float;
  pos_y : float
}.

(** An entry of [wristPositions]. *)
Record WristPair : Type := mkWristPair {
  wp_left : Position;
  wp_right : Position
}.

(** The string literals [determineActivity] can return. *)
Inductive Activity : Type :=
| Standing
| Movement
| RaisingHands
| Stable
| Waving
| Sitting
| Squatting.

Definition activity_label (a : Activity) : string :=
  match a with
  | Standing => "Standing"
  | Movement => "Movement"
  | RaisingHands => "Raising Hands"
  | Stable => "Stable"
  | Waving => "Waving"
  | Sitting => "Sitting"
  | Squatting => "Squatting"
  end.

Definition Activity_eqb (a b : Activity) : bool :=
  match a, b with
  | Standing, Standing | Movement, Movement | RaisingHands, RaisingHands
  | Stable, Stable | Waving, Waving | Sitting, Sitting
  | Squatting, Squatting => true
  | _, _ => false
  end.

(** ** Geometric helpers *)

Section Geometry.

Context {M : MathLib}.

Definition calculateAngle (p1 p2 p3 : Keypoint) : float :=
  let radians :=
    Math_atan2 (kp_y p3 - kp_y p2) (kp_x p3 - kp_x p2) -
    Math_atan2 (kp_y p1 - kp_y p2) (kp_x p1 - kp_x p2) in
  let angle := abs ((radians * 180) / Math_PI) in
  if gtb angle 180 then 360 - angle else angle.

Definition calculateDistance (p1 p2 : Keypoint) : float :=
  Math_sqrt (Math_pow (kp_x p2 - kp_x p1) 2 + Math_pow (kp_y p2 - kp_y p1) 2).

End Geometry.

(** ** Motion detectors *)

Section Detectors.

Context {M : MathLib}.

(** [isMoving] closes over the state variable [previousPositions]; its
    parameter [currentPos] is kept as the source declares it. *)
Definition isMoving (previousPositions : list Position)
    (currentPos : Position) : bool :=
  if (List.length previousPositions <? 5)%nat then false
  else
    let recentPositions := Array_slice (-5) previousPositions in
    let avgMovement :=
      Array_reduce
        (fun (acc : float) (pos : Position) (idx : nat) (arr : list Position) =>
           if (idx =? 0)%nat then 0
           else
             (* idx >= 1 here, so arr[idx - 1] is always an element *)
             let prevPos := nth (idx - 1) arr pos in
             acc +
             Math_sqrt
               (Math_pow (pos_x pos - pos_x prevPos) 2 +
                Math_pow (pos_y pos - pos_y prevPos) 2))
        0 recentPositions
      / num_of_nat (List.length recentPositions - 1) in
    gtb avgMovement 15.

(** The four [map(...).slice(1)] pipelines of [isWaving] differ only in
    the wrist ([left] or [right]) and the coordinate ([x] or [y]) they
    read; [wristChanges side coord] is that pipeline. *)
Definition wristChanges (side : WristPair -> Position)
    (coord : Position -> float) (recentWristPositions : list WristPair)
    : list float :=
  Array_slice 1
    (Array_map
       (fun (pos : WristPair) (idx : nat) (arr : list WristPair) =>
          if (idx =? 0)%nat then 0
          else abs (coord (side pos) - coord (side (nth (idx - 1) arr pos))))
       recentWristPositions).

(** [changes.reduce((sum, val) => sum + val, 0) / changes.length]. *)
Definition average (changes : list float) : float :=
  Array_reduce (fun (sum val : float) (_ : nat) (_ : list float) => sum + val)
    0 changes
  / num_of_nat (List.length changes).

Definition isWaving (wristHistory : list WristPair) : bool :=
  if (List.length wristHistory <? 10)%nat then false
  else
    let recentWristPositions := Array_slice (-10) wristHistory in
    let leftWristXChanges := wristChanges wp_left pos_x recentWristPositions in
    let rightWristXChanges := wristChanges wp_right pos_x recentWristPositions in
    let avgLeftWristXChange := average leftWristXChanges in
    let avgRightWristXChange := average rightWristXChanges in
    let leftWristYChanges := wristChanges wp_left pos_y recentWristPositions in
    let rightWristYChanges := wristChanges wp_right pos_y recentWristPositions in
    let avgLeftWristYChange := average leftWristYChanges in
    let avgRightWristYChange := average rightWristYChanges in
    let leftWristWaving :=
      gtb avgLeftWristXChange 20 &&
      gtb avgLeftWristXChange (2 * avgLeftWristYChange) in
    let rightWristWaving :=
      gtb avgRightWristXChange 20 &&
      gtb avgRightWristXChange (2 * avgRightWristYChange) in
    leftWristWaving || rightWristWaving.

End Detectors.

(** ** The rule chain *)

(** [kp.name === name]: an absent name is never equal to a string. *)
Definition name_is (name : string) (kp : Keypoint) : bool :=
  match kp_name kp with
  | Some n => String.eqb n name
  | None => false
  end.

Definition findKeypoint (keypoints : list Keypoint) (name : string)
    : option Keypoint :=
  Array_find (name_is name) keypoints.

(** The thirteen keypoints of a frame that passed the presence test, in
    the order the source looks them up. *)
Record Skeleton : Type := mkSkeleton {
  nose : Keypoint;
  leftShoulder : Keypoint;
  rightShoulder : Keypoint;
  leftElbow : Keypoint;
  rightElbow : Keypoint;
  leftWrist : Keypoint;
  rightWrist : Keypoint;
  leftHip : Keypoint;
  rightHip : Keypoint;
  leftKnee : Keypoint;
  rightKnee : Keypoint;
  leftAnkle : Keypoint;
  rightAnkle : Keypoint
}.

(** The thirteen lookups followed by the presence test: [None] is the
    branch in which the source returns ['Stable'] at once. *)
Definition lookupSkeleton (keypoints : list Keypoint) : option Skeleton :=
  match findKeypoint keypoints "nose",
        findKeypoint keypoints "left_shoulder",
        findKeypoint keypoints "right_shoulder",
        findKeypoint keypoints "left_elbow",
        findKeypoint keypoints "right_elbow",
        findKeypoint keypoints "left_wrist",
        findKeypoint keypoints "right_wrist",
        findKeypoint keypoints "left_hip",
        findKeypoint keypoints "right_hip",
        findKeypoint keypoints "left_knee",
        findKeypoint keypoints "right_knee",
        findKeypoint keypoints "left_ankle",
        findKeypoint keypoints "right_ankle" with
  | Some n, Some ls, Some rs, Some le, Some re, Some lw, Some rw,
    Some lh, Some rh, Some lk, Some rk, Some la, Some ra =>
      Some (mkSkeleton n ls rs le re lw rw lh rh lk rk la ra)
  | _, _, _, _, _, _, _, _, _, _, _, _, _ => None
  end.

Section Classifier.

Context {M : MathLib}.

(** *** Features computed once the thirteen keypoints are present *)

Definition leftKneeAngle (k : Skeleton) : float :=
  calculateAngle (leftHip k) (leftKnee k) (leftAnkle k).
Definition rightKneeAngle (k : Skeleton) : float :=
  calculateAngle (rightHip k) (rightKnee k) (rightAnkle k).
Definition leftHipAngle (k : Skeleton) : float :=
  calculateAngle (leftShoulder k) (leftHip k) (leftKnee k).
Definition rightHipAngle (k : Skeleton) : float :=
  calculateAngle (rightShoulder k) (rightHip k) (rightKnee k).

Definition shoulderHipDist (k : Skeleton) : float :=
  (calculateDistance (leftShoulder k) (leftHip k) +
   calculateDistance (rightShoulder k) (rightHip k)) / 2.
Definition hipKneeDist (k : Skeleton) : float :=
  (calculateDistance (leftHip k) (leftKnee k) +
   calculateDistance (rightHip k) (rightKnee k)) / 2.
Definition kneeAnkleDist (k : Skeleton) : float :=
  (calculateDistance (leftKnee k) (leftAnkle k) +
   calculateDistance (rightKnee k) (rightAnkle k)) / 2.

Definition totalHeight (k : Skeleton) : float :=
  shoulderHipDist k + hipKneeDist k + kneeAnkleDist k.
Definition shoulderHipRatio (k : Skeleton) : float :=
  shoulderHipDist k / totalHeight k.
Definition hipKneeRatio (k : Skeleton) : float :=
  hipKneeDist k / totalHeight k.

(** *** The conditions of the rules *)

Definition armsRaised (k : Skeleton) : bool :=
  (kp_y (leftWrist k) <? kp_y (leftShoulder k) - 50) &&
  (kp_y (rightWrist k) <? kp_y (rightShoulder k) - 50).

Definition isSquatting (k : Skeleton) : bool :=
  (leftKneeAngle k <? 100) &&
  (rightKneeAngle k <? 100) &&
  gtb (leftHipAngle k) 45 &&
  gtb (rightHipAngle k) 45 &&
  (abs (kp_y (leftShoulder k) - kp_y (rightShoulder k)) <? 30) &&
  gtb (kp_y (nose k)) ((kp_y (leftShoulder k) + kp_y (rightShoulder k)) / 2).

Definition isSitting (k : Skeleton) : bool :=
  (leftKneeAngle k <? 120) &&
  (rightKneeAngle k <? 120) &&
  gtb (kp_y (leftHip k)) (kp_y (leftKnee k) - 20) &&
  gtb (kp_y (rightHip k)) (kp_y (rightKnee k) - 20) &&
  (shoulderHipRatio k <? 0x1.999999999999ap-2) &&  (* 0.4 *)
  gtb (hipKneeRatio k) 0x1.3333333333333p-2.       (* 0.3 *)

Definition isStanding (k : Skeleton) : bool :=
  gtb (leftKneeAngle k) 160 &&
  gtb (rightKneeAngle k) 160 &&
  (abs (kp_y (leftShoulder k) - kp_y (rightShoulder k)) <? 30) &&
  (abs (kp_y (leftHip k) - kp_y (rightHip k)) <? 30) &&
  (abs (kp_y (leftKnee k) - kp_y (rightKnee k)) <? 30) &&
  gtb (shoulderHipRatio k) 0x1.3333333333333p-2 && (* 0.3 *)
  gtb (hipKneeRatio k) 0x1.3333333333333p-2.       (* 0.3 *)

(** *** [determineActivity]

    The function closes over the state variables [previousPositions]
    and [wristPositions]. *)
Definition classifySkeleton (previousPositions : list Position)
    (wristPositions : list WristPair) (k : Skeleton) : Activity :=
  if armsRaised k then RaisingHands
  else if isWaving wristPositions then Waving
  else if isSquatting k then Squatting
  else if isSitting k then Sitting
  else if isMoving previousPositions
            (mkPosition (kp_x (nose k)) (kp_y (nose k))) then Movement
  else if isStanding k then Standing
  else Stable.

Definition determineActivity (previousPositions : list Position)
    (wristPositions : list WristPair) (keypoints : list Keypoint)
    : Activity :=
  if (List.length keypoints =? 0)%nat then Stable
  else
    match lookupSkeleton keypoints with
    | None => Stable
    | Some k => classifySkeleton previousPositions wristPositions k
    end.

End Classifier.

(** ** The component state and its callbacks *)

(** The React state of [App], one field per [useState]. *)
Record AppState : Type := mkAppState {
  detector : bool;                       (* [detector !== null] *)
  currentActivity : Activity;
  isLoading : bool;
  previousPositions : list Position;
  isWebcamReady : bool;
  hasVideoStream : bool;
  wristPositions : list WristPair
}.

(** The state after the first render. *)
Definition initialState : AppState :=
  {| detector := false; currentActivity := Stable; isLoading := true;
     previousPositions := []; isWebcamReady := false;
     hasVideoStream := false; wristPositions := [] |}.

(** The [HTMLVideoElement] fields the component inspects. *)
Record Video : Type := mkVideo {
  readyState : Z;
  videoWidth : Z;
  videoHeight : Z
}.

(** [webcamRef.current] and its [video] field: either may be null. *)
Definition WebcamRef : Type := option (option Video).

(** The outcome of [await detector.estimatePoses(video)]. *)
Inductive Estimate : Type :=
| Poses (pose : list Pose)
| Throws.

(** The updater passed to [setPreviousPositions]. *)
Definition pushPosition (n : Keypoint) (prev : list Position) : list Position :=
  Array_slice (-9) prev ++ [mkPosition (kp_x n) (kp_y n)].

(** The updater passed to [setWristPositions]. *)
Definition pushWrists (lw rw : Keypoint) (prev : list WristPair) : list WristPair :=
  Array_slice (-19) prev ++
  [mkWristPair (mkPosition (kp_x lw) (kp_y lw)) (mkPosition (kp_x rw) (kp_y rw))].

(** [loadModel], once [createDetector] has resolved. *)
Definition loadModel (st : AppState) : AppState :=
  {| detector := true; currentActivity := currentActivity st;
     isLoading := false; previousPositions := previousPositions st;
     isWebcamReady := isWebcamReady st; hasVideoStream := hasVideoStream st;
     wristPositions := wristPositions st |}.

Definition setHasVideoStream (b : bool) (st : AppState) : AppState :=
  {| detector := detector st; currentActivity := currentActivity st;
     isLoading := isLoading st; previousPositions := previousPositions st;
     isWebcamReady := isWebcamReady st; hasVideoStream := b;
     wristPositions := wristPositions st |}.

(** [onUserMedia]. *)
Definition setIsWebcamReady (b : bool) (st : AppState) : AppState :=
  {| detector := detector st; currentActivity := currentActivity st;
     isLoading := isLoading st; previousPositions := previousPositions st;
     isWebcamReady := b; hasVideoStream := hasVideoStream st;
     wristPositions := wristPositions st |}.

Definition checkVideoStream (webcam : WebcamRef) (st : AppState) : AppState :=
  match webcam with
  | Some (Some video) =>
      if (readyState video =? 4)%Z && (0 <? videoWidth video)%Z
         && (0 <? videoHeight video)%Z
      then setHasVideoStream true st
      else setHasVideoStream false st
  | _ => setHasVideoStream false st
  end.

Section Driver.

Context {M : MathLib}.

(** The body of the [if (pose.length > 0 && ...)] block of
    [detectPose]. *)
Definition recordPose (keypoints : list Keypoint) (st : AppState) : AppState :=
  let activity :=
    determineActivity (previousPositions st) (wristPositions st) keypoints in
  let positions :=
    match findKeypoint keypoints "nose" with
    | Some n => pushPosition n (previousPositions st)
    | None => previousPositions st
    end in
  let wrists :=
    match findKeypoint keypoints "left_wrist",
          findKeypoint keypoints "right_wrist" with
    | Some lw, Some rw => pushWrists lw rw (wristPositions st)
    | _, _ => wristPositions st
    end in
  {| detector := detector st; currentActivity := activity;
     isLoading := isLoading st; previousPositions := positions;
     isWebcamReady := isWebcamReady st; hasVideoStream := hasVideoStream st;
     wristPositions := wrists |}.

(** [pose.length > 0 && pose[0].score && pose[0].score > 0.3]: an absent
    score, [0] and [NaN] are falsy, and none of them exceeds 0.3. *)
Definition poseAccepted (pose : list Pose) : option (list Keypoint) :=
  match pose with
  | [] => None
  | p :: _ =>
      match pose_score p with
      | Some s => if gtb s 0x1.3333333333333p-2 then Some (pose_keypoints p)
                  else None
      | None => None
      end
  end.

Definition detectPose (webcam : WebcamRef) (estimate : Estimate)
    (st : AppState) : AppState :=
  if negb (detector st) then st
  else
    match webcam with
    | None => st
    | Some None => st
    | Some (Some video) =>
        if negb (isWebcamReady st) || negb (hasVideoStream st) then st
        else if negb (readyState video =? 4)%Z
                || (videoWidth video =? 0)%Z
                || (videoHeight video =? 0)%Z then st
        else
          match estimate with
          | Throws => setHasVideoStream false st
          | Poses pose =>
              match poseAccepted pose with
              | Some keypoints => recordPose keypoints st
              | None => st
              end
          end
    end.

(** The callbacks that change the state, as events of the component. *)
Inductive Event : Type :=
| ModelLoaded
| UserMedia
| VideoChecked (webcam : WebcamRef)
| PoseTick (webcam : WebcamRef) (estimate : Estimate).

Definition step (st : AppState) (ev : Event) : AppState :=
  match ev with
  | ModelLoaded => loadModel st
  | UserMedia => setIsWebcamReady true st
  | VideoChecked webcam => checkVideoStream webcam st
  | PoseTick webcam estimate => detectPose webcam estimate st
  end.

Definition run (events : list Event) : AppState :=
  fold_left step events initialState.

End Driver.

(** ** The rendered tiles *)

(** [const activities]: the labels listed as tiles. *)
Definition activities : list string :=
  ["Standing"; "Movement"; "Raising Hands"; "Stable"; "Waving"; "Sitting"].

(** [currentActivity === activity]: whether the tile of [activity] is
    drawn highlighted. *)
Definition tileHighlighted (current : Activity) (activity : string) : bool :=
  String.eqb (activity_label current) activity.

(** The highlight flags of the tiles, in the order they are rendered. *)
Definition highlightedTiles (current : Activity) : list bool :=
  map (tileHighlighted current) activities.

(** ** A reference [Math] library

    [Math.atan2], [Math.pow] and [Math.sqrt] belong to the JavaScript
    runtime, not to the repository.  The reference instance follows the
    case table of the language standard for [Math.atan2] and approximates
    the remaining case by a truncated series; it squares by one
    multiplication (the program raises to the power 2 only) and takes the
    binary64 square root.  It serves to run the program on concrete
    frames; the theorems below hold for every instance of [MathLib] and
    name the guarantees of the standard they rely on. *)

Module Reference.

Definition half_pi : float := Math_PI / 2.
Definition quarter_pi : float := Math_PI / 4.

(** [z * (1/d1 - z * (1/d2 - ...))] for the odd denominators [ds]. *)
Fixpoint atan_series (z : float) (ds : list float) : float :=
  match ds with
  | [] => 0
  | d :: ds' => 1 / d - z * atan_series z ds'
  end.

(** One halving of the angle: [atan t = 2 * atan (t / (1 + sqrt (1 + t^2)))]. *)
Definition halve (t : float) : float := t / (1 + PrimFloat.sqrt (1 + t * t)).

(** The arc tangent of [t] for [0 <= t <= 1]. *)
Definition atan_unit (t : float) : float :=
  let u := halve (halve (halve t)) in
  8 * (u * atan_series (u * u) [1; 3; 5; 7; 9; 11; 13; 15; 17; 19; 21; 23]).

Definition negative (f : float) : bool :=
  match classify f with
  | NInf | NNormal | NSubn | NZero => true
  | _ => false
  end.

Definition with_sign_of (y r : float) : float :=
  if negative y then - r else r.

(** The result is kept within [[-Math.PI, Math.PI]], the range the
    standard prescribes. *)
Definition clamp_pi (v : float) : float :=
  if v <=? Math_PI then (if - Math_PI <=? v then v else - Math_PI)
  else Math_PI.

Definition atan2 (y x : float) : float :=
  if is_nan y || is_nan x then nan
  else
    clamp_pi
      match classify y, classify x with
      | NaN, _ | _, NaN => nan
      | (PInf | NInf), PInf => with_sign_of y quarter_pi
      | (PInf | NInf), NInf => with_sign_of y (3 * quarter_pi)
      | (PInf | NInf), _ => with_sign_of y half_pi
      | (PZero | NZero), (PInf | PNormal | PSubn | PZero) => with_sign_of y 0
      | (PZero | NZero), _ => with_sign_of y Math_PI
      | _, PInf => with_sign_of y 0
      | _, NInf => with_sign_of y Math_PI
      | _, (PZero | NZero) => with_sign_of y half_pi
      | _, _ =>
          let ay := abs y in
          let ax := abs x in
          let base :=
            if ay <=? ax then atan_unit (ay / ax)
            else half_pi - atan_unit (ax / ay) in
          with_sign_of y (if negative x then Math_PI - base else base)
      end.

Definition pow (x y : float) : float :=
  if y =? 2 then x * x else nan.

Definition math : MathLib :=
  {| Math_atan2 := atan2; Math_pow := pow; Math_sqrt := PrimFloat.sqrt |}.

End Reference.

(** ** Sample frames *)

Module Samples.

(** A keypoint named [name] at [(x, y)] with confidence [score]. *)
Definition kp (score : float) (name : string) (x y : float) : Keypoint :=
  {| kp_x := x; kp_y := y; kp_score := Some score; kp_name := Some name |}.

(** The four face keypoints of the 17-point layout that no rule reads. *)
Definition face (score : float) : list Keypoint :=
  [ kp score "left_eye" 95 35; kp score "right_eye" 105 35;
    kp score "left_ear" 90 38; kp score "right_ear" 110 38 ].

(** Upright, legs straight, both wrists 60 above the shoulders. *)
Definition armsUp (score : float) : list Keypoint :=
  kp score "nose" 100 40 :: face score ++
  [ kp score "left_shoulder" 80 100; kp score "right_shoulder" 120 100;
    kp score "left_elbow" 70 60; kp score "right_elbow" 130 60;
    kp score "left_wrist" 70 40; kp score "right_wrist" 130 40;
    kp score "left_hip" 85 200; kp score "right_hip" 115 200;
    kp score "left_knee" 85 300; kp score "right_knee" 115 300;
    kp score "left_ankle" 85 400; kp score "right_ankle" 115 400 ].

(** The same pose with the arms hanging, and no [right_ankle]. *)
Definition noRightAnkle : list Keypoint :=
  kp 0.75 "nose" 100 40 :: face 0.75 ++
  [ kp 0.75 "left_shoulder" 80 100; kp 0.75 "right_shoulder" 120 100;
    kp 0.75 "left_elbow" 75 150; kp 0.75 "right_elbow" 125 150;
    kp 0.75 "left_wrist" 75 195; kp 0.75 "right_wrist" 125 195;
    kp 0.75 "left_hip" 85 200; kp 0.75 "right_hip" 115 200;
    kp 0.75 "left_knee" 85 300; kp 0.75 "right_knee" 115 300;
    kp 0.75 "left_ankle" 85 400 ].

(** A squat seen from the side: knee angles of about 80 and 82 degrees,
    hip angles of about 60 and 58 degrees, shoulders 5 apart in height,
    and the head held up: the nose (y = 60) lies above the midpoint of
    the shoulders (y = 102.5). *)
Definition squatHeadUp : list Keypoint :=
  kp 0.75 "nose" 100 60 :: face 0.75 ++
  [ kp 0.75 "left_shoulder" 80 100; kp 0.75 "right_shoulder" 120 105;
    kp 0.75 "left_elbow" 110 140; kp 0.75 "right_elbow" 150 145;
    kp 0.75 "left_wrist" 150 130; kp 0.75 "right_wrist" 190 135;
    kp 0.75 "left_hip" 80 200; kp 0.75 "right_hip" 120 205;
    kp 0.75 "left_knee" 167 150; kp 0.75 "right_knee" 205 152;
    kp 0.75 "left_ankle" 201 244; kp 0.75 "right_ankle" 246 243 ].


(** Every keypoint of the frame at the same point. *)
Definition collapsed : list Keypoint :=
  map (fun name => kp 0.75 name 100 100)
    [ "nose"; "left_shoulder"; "right_shoulder"; "left_elbow";
      "right_elbow"; "left_wrist"; "right_wrist"; "left_hip"; "right_hip";
      "left_knee"; "right_knee"; "left_ankle"; "right_ankle" ].

(** The skeleton of a frame in which the thirteen keypoints are found
    (and a skeleton of [collapsed] otherwise). *)
Definition skeletonOf (keypoints : list Keypoint) : Skeleton :=
  match lookupSkeleton keypoints with
  | Some k => k
  | None =>
      let c := kp 0.75 "" 100 100 in
      mkSkeleton c c c c c c c c c c c c c
  end.

(** A webcam whose video element is ready (640 x 480). *)
Definition webcam : WebcamRef := Some (Some (mkVideo 4 640 480)).

(** The events that bring the component to the point where frames are
    classified. *)
Definition warmUp : list Event :=
  [ModelLoaded; UserMedia; VideoChecked webcam].

End Samples.

(** * Specification vocabulary

    The notions the statements below are phrased in: the last [n]
    elements of a buffer, averages over consecutive samples, the rule
    table, and the reading of binary64 values as integers times powers of
    two. *)

(** ** Buffers *)

(** The last [n] elements of a list, in their order. *)
Definition lastn {A : Type} (n : nat) (l : list A) : list A :=
  skipn (List.length l - n) l.

(** The sample [detectPose] stores for a nose keypoint. *)
Definition samplePosition (n : Keypoint) : Position :=
  mkPosition (kp_x n) (kp_y n).

(** The sample [detectPose] stores for a pair of wrist keypoints. *)
Definition sampleWrists (w : Keypoint * Keypoint) : WristPair :=
  mkWristPair (samplePosition (fst w)) (samplePosition (snd w)).

(** Both buffers within their capacity. *)
Definition within_capacity (st : AppState) : Prop :=
  (List.length (previousPositions st) <= 10)%nat /\
  (List.length (wristPositions st) <= 20)%nat.

(** ** Averages over consecutive samples *)

(** Consecutive pairs of a sequence, oldest first, combined by [f]. *)
Fixpoint consecutive {A B : Type} (f : A -> A -> B) (l : list A) : list B :=
  match l with
  | [] => []
  | a :: t =>
      match t with
      | [] => []
      | b :: _ => f a b :: consecutive f t
      end
  end.

(** The sum of a sequence of numbers, added from left to right. *)
Definition sum (l : list float) : float := fold_left PrimFloat.add l 0.

(** The absolute changes of one coordinate of one wrist between
    consecutive samples. *)
Definition absDeltas (side : WristPair -> Position)
    (coord : Position -> float) (samples : list WristPair) : list float :=
  consecutive (fun prev cur => abs (coord (side cur) - coord (side prev)))
    samples.

(** A side waves when its average horizontal change over the 9 steps
    exceeds 20 and exceeds twice its average vertical change. *)
Definition sideWaving (side : WristPair -> Position)
    (samples : list WristPair) : bool :=
  let avgX := sum (absDeltas side pos_x samples) / 9 in
  let avgY := sum (absDeltas side pos_y samples) / 9 in
  gtb avgX 20 && gtb avgX (2 * avgY).

(** [isWaving] as the specification words it. *)
Definition isWaving_spec (history : list WristPair) : bool :=
  if (List.length history <? 10)%nat then false
  else
    let recent := lastn 10 history in
    sideWaving wp_left recent || sideWaving wp_right recent.

(** ** The rule table *)

(** The names of the thirteen keypoints the rules read. *)
Definition requiredKeypoints : list string :=
  [ "nose"; "left_shoulder"; "right_shoulder"; "left_elbow"; "right_elbow";
    "left_wrist"; "right_wrist"; "left_hip"; "right_hip"; "left_knee";
    "right_knee"; "left_ankle"; "right_ankle" ].


(** A frame with the confidence scores replaced by [f]. *)
Definition rescore (f : Keypoint -> option float) (kp : Keypoint) : Keypoint :=
  {| kp_x := kp_x kp; kp_y := kp_y kp; kp_score := f kp; kp_name := kp_name kp |}.

Definition rescoreSkeleton (f : Keypoint -> option float) (k : Skeleton)
    : Skeleton :=
  mkSkeleton (rescore f (nose k))
    (rescore f (leftShoulder k)) (rescore f (rightShoulder k))
    (rescore f (leftElbow k)) (rescore f (rightElbow k))
    (rescore f (leftWrist k)) (rescore f (rightWrist k))
    (rescore f (leftHip k)) (rescore f (rightHip k))
    (rescore f (leftKnee k)) (rescore f (rightKnee k))
    (rescore f (leftAnkle k)) (rescore f (rightAnkle k)).

(** Both coordinates of a keypoint are finite numbers. *)
Definition finite_point (p : Keypoint) : bool :=
  is_finite (kp_x p) && is_finite (kp_y p).

(** [v] lies in the closed interval from [-Math.PI] to [Math.PI]. *)
Definition within_pi (v : float) : bool :=
  (- Math_PI <=? v) && (v <=? Math_PI).

Section Vocabulary.

Context {M : MathLib}.

(** The Euclidean distance between two samples, as [isMoving] computes
    it. *)
Definition displacement (prevPos pos : Position) : float :=
  Math_sqrt (Math_pow (pos_x pos - pos_x prevPos) 2 +
             Math_pow (pos_y pos - pos_y prevPos) 2).

(** [isMoving] as the specification words it: false below 5 samples,
    otherwise whether the average of the 4 displacements between
    consecutive samples among the last 5 exceeds 15. *)
Definition isMoving_spec (history : list Position) : bool :=
  if (List.length history <? 5)%nat then false
  else gtb (sum (consecutive displacement (lastn 5 history)) / 4) 15.


End Vocabulary.

(** What the language standard guarantees of the host functions: on
    arguments that are not NaN, [Math.atan2] returns a value between
    [-Math.PI] and [Math.PI]; [Math.sqrt] never returns a negative
    number. *)
Definition atan2_within_pi (M : MathLib) : Prop :=
  forall y x : float,
    is_nan y = false -> is_nan x = false -> within_pi (Math_atan2 y x) = true.

Definition sqrt_not_negative (M : MathLib) : Prop :=
  forall x : float, (Math_sqrt x <? 0) = false.

(** ** Runs of the component and further notions *)

(** [Math.pow(d, 2)] depends on the magnitude of [d] only. *)
Definition pow2_even (M : MathLib) : Prop :=
  forall d d' : float, abs d = abs d' -> Math_pow d 2 = Math_pow d' 2.

(** A library for which the distance from a point to itself is computed
    exactly. *)
Definition exact_at_zero (M : MathLib) : Prop :=
  Math_pow 0 2 = 0 /\ Math_sqrt 0 = 0.

(** The horizontal coordinate of both wrists stays at [xl] and [xr]
    throughout [samples]. *)
Definition wristsKeepX (xl xr : float) (samples : list WristPair) : Prop :=
  Forall (fun s => pos_x (wp_left s) = xl /\ pos_x (wp_right s) = xr) samples.

(** Whether the event is a call of [detectPose]. *)
Definition isPoseTick (ev : Event) : bool :=
  match ev with
  | PoseTick _ _ => true
  | _ => false
  end.

(** The number of calls of [detectPose] among [events]. *)
Definition poseTicks (events : list Event) : nat :=
  List.length (filter isPoseTick events).

(** Something has been classified or recorded. *)
Definition started (st : AppState) : bool :=
  negb (Activity_eqb (currentActivity st) Stable)
  || negb (List.length (previousPositions st) =? 0)%nat
  || negb (List.length (wristPositions st) =? 0)%nat.

(** [extra] carries none of the thirteen names the rules look up. *)
Definition unnamed_for_rules (extra : Keypoint) : Prop :=
  forall name, In name requiredKeypoints -> name_is name extra = false.

(** What has happened after [n] calls of [detectPose]. *)
Definition cold_start_inv (n : nat) (st : AppState) : Prop :=
  (List.length (previousPositions st) <= n)%nat /\
  (List.length (wristPositions st) <= n)%nat /\
  (currentActivity st = Movement -> 6 <= n)%nat /\
  (currentActivity st = Waving -> 11 <= n)%nat.

(** [pose.score && pose.score > 0.3]. *)
Definition usablePose (p : Pose) : bool :=
  match pose_score p with
  | Some s => gtb s 0x1.3333333333333p-2
  | None => false
  end.

(** The histories of [st'] are at least as long as those of [st]. *)
Definition not_shorter (st st' : AppState) : Prop :=
  (List.length (previousPositions st) <= List.length (previousPositions st'))%nat /\
  (List.length (wristPositions st) <= List.length (wristPositions st'))%nat.



Section RunVocabulary.

Context {M : MathLib}.


End RunVocabulary.

(** ** Binary64 values as integers times powers of two *)

Module Binary64.

Local Open Scope Z_scope.

Abbreviation fexp64 := (fexp prec emax).

(** Whether bits were lost below the mantissa of a shift record. *)
Definition inexact (mrs : shr_record) : bool := shr_r mrs || shr_s mrs.

(** [shifted k a b]: the record [b] is [a] shifted right by [k] bits. *)
Definition shifted (k : Z) (a b : shr_record) : Prop :=
  shr_m b = shr_m a / 2 ^ k /\
  (inexact b = true -> inexact a = true \/ shr_m a mod 2 ^ k <> 0).

(** The float made of the rounded mantissa [m2] at exponent [e]. *)
Definition result_of (sx : bool) (m2 e : Z) : spec_float :=
  if m2 =? 0 then S754_zero sx
  else if m2 <? 2 ^ 53 then
         if e <=? 971 then S754_finite sx (Z.to_pos m2) e else S754_infinity sx
       else
         if e + 1 <=? 971 then S754_finite sx (2 ^ 52)%positive (e + 1)
         else S754_infinity sx.

(** [x] is a zero or a finite float of magnitude at most [mB * 2 ^ eB]. *)
Definition mag_le (x : spec_float) (mB : positive) (eB : Z) : Prop :=
  match x with
  | S754_zero _ => True
  | S754_finite _ m e => e < eB \/ (e = eB /\ Z.pos m <= Z.pos mB)
  | _ => False
  end.

(** A zero, or a positive finite float of magnitude at most
    [mB * 2 ^ eB]. *)
Definition pos_le (x : spec_float) (mB : positive) (eB : Z) : Prop :=
  match x with
  | S754_zero _ => True
  | S754_finite false m e => e < eB \/ (e = eB /\ Z.pos m <= Z.pos mB)
  | _ => False
  end.

(** [x] is not NaN and its sign bit is [sx]. *)
Definition has_sign (sx : bool) (x : spec_float) : Prop :=
  match x with
  | S754_nan => False
  | S754_zero s | S754_infinity s | S754_finite s _ _ => s = sx
  end.

(** NaN, a zero, or a float with a clear sign bit. *)
Definition nonneg_or_nan (x : spec_float) : Prop :=
  match x with
  | S754_nan | S754_zero _ => True
  | S754_infinity s | S754_finite s _ _ => s = false
  end.

Definition is_zeroSF (x : spec_float) : Prop :=
  match x with
  | S754_zero _ => True
  | _ => False
  end.

(** A zero or a finite float. *)
Definition finiteSF (x : spec_float) : Prop :=
  match x with
  | S754_zero _ | S754_finite _ _ _ => True
  | _ => False
  end.

Definition NonNeg (f : float) : Prop := nonneg_or_nan (Prim2SF f).
Definition IsZero (f : float) : Prop := is_zeroSF (Prim2SF f).

(** [f] is a zero or a finite float with [|f| <= mB * 2 ^ eB]. *)
Definition Mag (f : float) (mB : positive) (eB : Z) : Prop :=
  mag_le (Prim2SF f) mB eB.

(** The mantissas of [Math.PI] (exponent -51), of 180 (exponent -45; 360
    has the same mantissa at exponent -44) and of the product
    [2 * Math.PI * 180] rounded to binary64 (exponent -42). *)
Definition m_pi : positive := 7074237752028440.
Definition m_180 : positive := 6333186975989760.
Definition m_T : positive := 4974073419394997.

(** The arithmetic of [calculateAngle] on the two values of [atan2]. *)
Definition angle_of (a b : float) : float :=
  let radians := (a - b)%float in
  let angle := abs ((radians * 180) / Math_PI)%float in
  if (180 <? angle)%float then (360 - angle)%float else angle.

End Binary64.

(** * Properties *)

(** ** Binary64 arithmetic

    Facts about the binary64 operations, derived from their specification
    over [spec_float]: how rounding shifts a mantissa, that rounding a
    value that does not exceed a float gives at most that float, and what
    follows for the operations [calculateAngle] and the ratios use. *)

Unset Implicit Arguments.

Module Binary64Facts.

Import Binary64.

Local Open Scope Z_scope.

(** *** Digit counts and shifts *)

Lemma digits2_pos_size (p : positive) : digits2_pos p = Pos.size p.
Proof. induction p; cbn; congruence. Qed.

Lemma digits2_bounds (p : positive) :
  2 ^ (Z.pos (digits2_pos p) - 1) <= Z.pos p < 2 ^ Z.pos (digits2_pos p).
Proof.
  rewrite digits2_pos_size.
  pose proof (Pos.size_gt p) as Hgt. pose proof (Pos.size_le p) as Hle.
  assert (H2 : Z.pos (2 ^ Pos.size p) = 2 ^ Z.pos (Pos.size p)).
  { now rewrite Pos2Z.inj_pow. }
  split.
  - assert (2 ^ Z.pos (Pos.size p) <= 2 * Z.pos p) by (rewrite <- H2; lia).
    replace (Z.pos (Pos.size p)) with (Z.succ (Z.pos (Pos.size p) - 1)) in H by lia.
    rewrite Z.pow_succ_r in H by lia. lia.
  - rewrite <- H2. lia.
Qed.

Lemma shifted_1 (a : shr_record) : 0 <= shr_m a -> shifted 1 a (shr_1 a).
Proof.
  destruct a as [m r s]. cbn [shr_m]. intros Hm. unfold shifted, inexact.
  change (2 ^ 1) with 2.
  destruct m as [|[p|p|]|p]; try lia; cbn [shr_1 shr_m shr_r shr_s].
  - split; [reflexivity|]. rewrite orb_false_l. intros ->. left.
    destruct r; reflexivity.
  - split; [now rewrite Pos2Z.inj_xI, Z.mul_comm, Z.div_add_l by lia|].
    intros _. right. rewrite Pos2Z.inj_xI, Z.add_comm, Z.mul_comm, Z.mod_add by lia.
    discriminate.
  - split; [now rewrite Pos2Z.inj_xO, Z.mul_comm, Z.div_mul by lia|].
    rewrite orb_false_l. intros ->. left. destruct r; reflexivity.
  - split; [reflexivity|]. intros _. right. discriminate.
Qed.

Lemma shifted_trans (j k : Z) (a b c : shr_record) :
  0 <= j -> 0 <= k -> 0 <= shr_m a ->
  shifted j a b -> shifted k b c -> shifted (j + k) a c.
Proof.
  intros Hj Hk Ha [Hb1 Hb2] [Hc1 Hc2]. split.
  - rewrite Hc1, Hb1, Z.pow_add_r, Z.div_div by lia. reflexivity.
  - intros Hc. destruct (Hc2 Hc) as [Hb|Hb].
    + destruct (Hb2 Hb) as [H|H]; [now left|right].
      intros E. apply H. rewrite Z.pow_add_r in E by lia.
      apply Z.mod_divide in E; [|lia].
      apply Z.mod_divide; [lia|].
      destruct E as [q E]. exists (q * 2 ^ k). lia.
    + right. intros E. apply Hb. rewrite Hb1.
      rewrite Z.pow_add_r in E by lia.
      apply Z.mod_divide in E; [|lia]. destruct E as [q E].
      rewrite E. replace (q * (2 ^ j * 2 ^ k)) with (q * 2 ^ k * 2 ^ j) by ring.
      rewrite Z.div_mul by lia. apply Z.mod_mul. lia.
Qed.

Lemma shifted_nonneg (k : Z) (a b : shr_record) :
  0 <= k -> 0 <= shr_m a -> shifted k a b -> 0 <= shr_m b.
Proof. intros Hk Ha [-> _]. apply Z.div_pos; lia. Qed.

Lemma shifted_iter_pos (p : positive) (a : shr_record) :
  0 <= shr_m a -> shifted (Z.pos p) a (iter_pos shr_1 p a).
Proof.
  revert a. induction p as [p IH|p IH|]; intros a Ha; cbn [iter_pos].
  - pose proof (shifted_1 a Ha) as H1.
    pose proof (shifted_nonneg 1 _ _ ltac:(lia) Ha H1) as Hb.
    pose proof (IH _ Hb) as H2.
    pose proof (shifted_nonneg (Z.pos p) _ _ ltac:(lia) Hb H2) as Hc.
    pose proof (IH _ Hc) as H3.
    replace (Z.pos p~1) with (1 + Z.pos p + Z.pos p) by lia.
    eapply shifted_trans; [lia|lia|exact Ha| |exact H3].
    eapply shifted_trans; [lia|lia|exact Ha|exact H1|exact H2].
  - pose proof (IH _ Ha) as H2.
    pose proof (shifted_nonneg (Z.pos p) _ _ ltac:(lia) Ha H2) as Hc.
    pose proof (IH _ Hc) as H3.
    replace (Z.pos p~0) with (Z.pos p + Z.pos p) by lia.
    eapply shifted_trans; [lia|lia|exact Ha|exact H2|exact H3].
  - now apply shifted_1.
Qed.

(** *** Rounding *)

Lemma fexp64_eq (x : Z) : fexp64 x = Z.max (x - 53) (-1074).
Proof. reflexivity. Qed.

Lemma Zdigits2_nonneg (m : Z) : 0 <= Zdigits2 m.
Proof. destruct m; cbn; lia. Qed.

Lemma Zdigits2_bounds (m : Z) :
  0 < m -> 2 ^ (Zdigits2 m - 1) <= m < 2 ^ Zdigits2 m.
Proof. destruct m as [|p|p]; try lia. intros _. apply digits2_bounds. Qed.

Lemma Zdigits2_le (m : Z) (d : Z) : 0 <= d -> 0 <= m < 2 ^ d -> Zdigits2 m <= d.
Proof.
  intros Hd [H0 H]. destruct (Z.eq_dec m 0) as [->|Hm]; [cbn; lia|].
  pose proof (Zdigits2_bounds m ltac:(lia)) as [Hl _].
  assert (Hlt : 2 ^ (Zdigits2 m - 1) < 2 ^ d) by lia.
  apply Z.pow_lt_mono_r_iff in Hlt; lia.
Qed.

Lemma shr_record_of_loc_m (m : Z) (l : location) :
  shr_m (shr_record_of_loc m l) = m.
Proof. destruct l as [|[]]; reflexivity. Qed.

Lemma shr_record_of_loc_inexact (m : Z) (l : location) :
  inexact (shr_record_of_loc m l) = true -> l <> loc_Exact.
Proof. destruct l as [|[]]; cbn; congruence. Qed.

Lemma shr_fexp_spec (m e : Z) (l : location) :
  0 <= m ->
  let E := Z.max (fexp64 (Zdigits2 m + e)) e in
  exists mrs,
    shr_fexp prec emax m e l = (mrs, E) /\
    shifted (E - e) (shr_record_of_loc m l) mrs.
Proof.
  intros Hm E. unfold shr_fexp, shr.
  destruct (fexp64 (Zdigits2 m + e) - e) as [|p|p] eqn:Hn.
  - exists (shr_record_of_loc m l). split; [f_equal; lia|].
    replace (E - e) with 0 by lia.
    split; [now rewrite Z.div_1_r|]. now left.
  - exists (iter_pos shr_1 p (shr_record_of_loc m l)). split; [f_equal; lia|].
    replace (E - e) with (Z.pos p) by lia.
    apply shifted_iter_pos. now rewrite shr_record_of_loc_m.
  - exists (shr_record_of_loc m l). split; [f_equal; lia|].
    replace (E - e) with 0 by lia.
    split; [now rewrite Z.div_1_r|]. now left.
Qed.

Lemma round_nearest_even_spec (mrs : shr_record) :
  let m2 := round_nearest_even (shr_m mrs) (loc_of_shr_record mrs) in
  shr_m mrs <= m2 <= shr_m mrs + 1 /\
  (m2 = shr_m mrs + 1 -> inexact mrs = true).
Proof.
  destruct mrs as [m [|] [|]]; cbn [shr_m loc_of_shr_record round_nearest_even inexact orb shr_r shr_s];
    try (split; [lia|]; intros; try reflexivity; lia).
  destruct (Z.even m); split; try lia; intros; reflexivity.
Qed.

Lemma second_shift (sx : bool) (m2 e : Z) :
  0 <= m2 <= 2 ^ 53 -> -1074 <= e ->
  (let '(mrs, e') := shr_fexp prec emax m2 e loc_Exact in
   match shr_m mrs with
   | Z0 => S754_zero sx
   | Zpos m => if e' <=? emax - prec then S754_finite sx m e' else S754_infinity sx
   | Zneg _ => S754_nan
   end) = result_of sx m2 e.
Proof.
  intros Hm He. unfold result_of.
  destruct (Z.ltb_spec m2 (2 ^ 53)) as [Hlt|Hge].
  - assert (Hd : Zdigits2 m2 <= 53) by (apply Zdigits2_le; lia).
    unfold shr_fexp, shr.
    assert (Hn : fexp64 (Zdigits2 m2 + e) - e <= 0) by (rewrite fexp64_eq; lia).
    destruct (fexp64 (Zdigits2 m2 + e) - e) as [|p|p] eqn:E; try lia;
      cbn [shr_record_of_loc shr_m];
      destruct m2 as [|q|q]; try lia; reflexivity.
  - assert (m2 = 2 ^ 53) as -> by lia.
    unfold shr_fexp, shr.
    change (Zdigits2 (2 ^ 53)) with 54.
    replace (fexp64 (54 + e) - e) with 1 by (rewrite fexp64_eq; lia).
    cbn [iter_pos shr_record_of_loc]. change (2 ^ 53 =? 0) with false.
    cbv iota. reflexivity.
Qed.

Lemma binary_round_aux_spec (sx : bool) (m e : Z) (l : location) :
  0 <= m ->
  let E := Z.max (fexp64 (Zdigits2 m + e)) e in
  exists m2,
    m / 2 ^ (E - e) <= m2 <= m / 2 ^ (E - e) + 1 /\
    (m2 = m / 2 ^ (E - e) + 1 -> l <> loc_Exact \/ m mod 2 ^ (E - e) <> 0) /\
    m2 <= 2 ^ 53 /\
    binary_round_aux prec emax sx m e l = result_of sx m2 E.
Proof.
  intros Hm E.
  destruct (shr_fexp_spec m e l Hm) as [mrs [Hs [Hm1 Hi]]].
  fold E in Hs, Hm1, Hi. rewrite shr_record_of_loc_m in Hm1, Hi.
  pose proof (round_nearest_even_spec mrs) as [Hr1 Hr2]. cbv zeta in Hr1, Hr2.
  set (m2 := round_nearest_even (shr_m mrs) (loc_of_shr_record mrs)) in *.
  assert (HE : -1074 <= E /\ e <= E /\ Zdigits2 m + e - 53 <= E)
    by (unfold E; rewrite fexp64_eq; lia).
  assert (Hm1lt : shr_m mrs < 2 ^ 53).
  { rewrite Hm1. destruct (Z.eq_dec m 0) as [->|Hm0].
    - rewrite Z.div_0_l; [lia|]. apply Z.pow_nonzero; lia.
    - pose proof (Zdigits2_bounds m ltac:(lia)) as [_ Hu].
      apply Z.div_lt_upper_bound; [apply Z.pow_pos_nonneg; lia|].
      rewrite <- Z.pow_add_r by lia.
      eapply Z.lt_le_trans; [exact Hu|].
      apply Z.pow_le_mono_r; lia. }
  assert (Hm1ge : 0 <= shr_m mrs).
  { rewrite Hm1. apply Z.div_pos; [lia|]. apply Z.pow_pos_nonneg; lia. }
  exists m2. rewrite <- Hm1. split; [exact Hr1|]. split; [|split; [lia|]].
  - intros H2. destruct (Hi (Hr2 H2)) as [H|H]; [left|now right].
    now apply shr_record_of_loc_inexact in H.
  - unfold binary_round_aux. rewrite Hs. fold m2.
    apply second_shift; lia.
Qed.

Lemma bounded_spec (m : positive) (e : Z) :
  bounded prec emax m e = true ->
  -1074 <= e <= 971 /\ Z.pos (digits2_pos m) <= 53 /\
  (-1074 < e -> Z.pos (digits2_pos m) = 53) /\
  fexp64 (Z.pos (digits2_pos m) + e) = e.
Proof.
  unfold bounded, canonical_mantissa. intros H.
  apply andb_true_iff in H. destruct H as [Hc He].
  apply Z.eqb_eq in Hc. apply Z.leb_le in He.
  change (emax - prec) with 971 in He.
  pose proof Hc as Hc'. rewrite fexp64_eq in Hc'. lia.
Qed.

Lemma result_of_sign (sx : bool) (m2 e : Z) : has_sign sx (result_of sx m2 e).
Proof.
  unfold result_of.
  destruct (m2 =? 0); [reflexivity|].
  destruct (m2 <? 2 ^ 53); [destruct (e <=? 971)|destruct (e + 1 <=? 971)];
    reflexivity.
Qed.

Lemma binary_round_aux_sign (sx : bool) (m e : Z) (l : location) :
  0 <= m -> has_sign sx (binary_round_aux prec emax sx m e l).
Proof.
  intros Hm.
  destruct (binary_round_aux_spec sx m e l Hm) as [m2 [_ [_ [_ ->]]]].
  apply result_of_sign.
Qed.

(** Rounding a value that does not exceed a float gives at most that
    float. *)
Lemma binary_round_aux_le (sx : bool) (m e : Z) (l : location)
    (mB : positive) (eB c : Z) :
  0 <= m -> e <= fexp64 (Zdigits2 m + e) ->
  bounded prec emax mB eB = true ->
  0 <= e + c -> 0 <= eB + c ->
  m * 2 ^ (e + c) <= Z.pos mB * 2 ^ (eB + c) ->
  (l <> loc_Exact -> m * 2 ^ (e + c) < Z.pos mB * 2 ^ (eB + c)) ->
  mag_le (binary_round_aux prec emax sx m e l) mB eB.
Proof.
  intros Hm He HB Hec HeBc Hle Hlt.
  destruct (bounded_spec mB eB HB) as [HeB [HdB [HdB' HcB]]].
  pose proof (digits2_bounds mB) as [HmBl HmBu].
  set (E := fexp64 (Zdigits2 m + e)) in *.
  assert (HEeB : E <= eB).
  { destruct (Z.eq_dec m 0) as [->|Hm0].
    - unfold E in *. cbn [Zdigits2] in *. rewrite fexp64_eq in *. lia.
    - pose proof (Zdigits2_bounds m ltac:(lia)) as [Hl _].
      assert (Hpow : 2 ^ (Zdigits2 m - 1 + (e + c)) <
                     2 ^ (Z.pos (digits2_pos mB) + (eB + c))).
      { pose proof (Zdigits2_nonneg m).
        assert (0 < Zdigits2 m).
        { destruct m; cbn in *; lia. }
        rewrite (Z.pow_add_r 2 (Zdigits2 m - 1)) by lia.
        rewrite (Z.pow_add_r 2 (Z.pos (digits2_pos mB))) by lia.
        assert (0 < 2 ^ (e + c)) by (apply Z.pow_pos_nonneg; lia).
        assert (0 < 2 ^ (eB + c)) by (apply Z.pow_pos_nonneg; lia).
        apply Z.le_lt_trans with (m * 2 ^ (e + c));
          [apply Z.mul_le_mono_nonneg_r; lia|].
        apply Z.le_lt_trans with (Z.pos mB * 2 ^ (eB + c)); [exact Hle|].
        apply Z.mul_lt_mono_pos_r; [lia|exact HmBu]. }
      apply Z.pow_lt_mono_r_iff in Hpow; [|lia|lia].
      unfold E. rewrite fexp64_eq. rewrite fexp64_eq in HcB. lia. }
  destruct (binary_round_aux_spec sx m e l Hm) as [m2 [Hm2 [Hup [_ ->]]]].
  rewrite (Z.max_l _ e) in * by exact He. fold E in Hm2, Hup.
  set (n := E - e) in *. assert (Hn : 0 <= n) by (unfold n; lia).
  set (K := Z.pos mB * 2 ^ (eB - E)).
  assert (Hpn : 0 < 2 ^ n) by (apply Z.pow_pos_nonneg; lia).
  assert (HK : Z.pos mB * 2 ^ (eB + c) = K * 2 ^ n * 2 ^ (e + c)).
  { unfold K, n. rewrite <- !Z.mul_assoc, <- !Z.pow_add_r by lia.
    do 2 f_equal. lia. }
  assert (Hpec : 0 < 2 ^ (e + c)) by (apply Z.pow_pos_nonneg; lia).
  assert (HmK : m <= K * 2 ^ n) by (rewrite HK in Hle; nia).
  assert (Hm1 : m / 2 ^ n <= K).
  { apply Z.div_le_upper_bound; [lia|]. lia. }
  assert (Hm2K : m2 <= K).
  { destruct (Z.eq_dec m2 (m / 2 ^ n + 1)) as [E2|E2]; [|lia].
    assert (Hstrict : m < K * 2 ^ n).
    { destruct (Hup E2) as [Hl|Hmod].
      - specialize (Hlt Hl). rewrite HK in Hlt. nia.
      - destruct (Z.eq_dec m (K * 2 ^ n)) as [Em|]; [|lia].
        exfalso. apply Hmod. rewrite Em. apply Z.mod_mul. lia. }
    assert (m / 2 ^ n < K); [|lia].
    apply Z.div_lt_upper_bound; lia. }
  assert (Hm20 : 0 <= m2).
  { assert (0 <= m / 2 ^ n) by (apply Z.div_pos; lia). lia. }
  unfold result_of. fold E.
  destruct (Z.eqb_spec m2 0) as [|Hnz]; [exact I|].
  destruct (Z.ltb_spec m2 (2 ^ 53)) as [Hlt53|Hge53].
  - replace (E <=? 971) with true by (symmetry; apply Z.leb_le; lia).
    cbn [mag_le]. rewrite Z2Pos.id by lia.
    destruct (Z.eq_dec E eB) as [EE|]; [right|left; lia].
    split; [exact EE|]. unfold K in Hm2K. rewrite EE, Z.sub_diag in Hm2K.
    cbn in Hm2K. lia.
  - assert (HEx : E + 1 <= eB).
    { destruct (Z.eq_dec E eB) as [EE|]; [|lia]. exfalso.
      unfold K in Hm2K. rewrite EE, Z.sub_diag in Hm2K.
      assert (Z.pos mB < 2 ^ 53).
      { eapply Z.lt_le_trans; [exact HmBu|]. apply Z.pow_le_mono_r; lia. }
      cbn in Hm2K. lia. }
    replace (E + 1 <=? 971) with true by (symmetry; apply Z.leb_le; lia).
    cbn [mag_le].
    destruct (Z.eq_dec (E + 1) eB) as [EE|]; [right|left; lia].
    split; [exact EE|]. unfold K in Hm2K.
    replace (eB - E) with 1 in Hm2K by lia.
    change (2 ^ 1) with 2 in Hm2K. change (Z.pos (2 ^ 52)) with (2 ^ 52).
    change (2 ^ 53) with (2 * 2 ^ 52) in Hge53. lia.
Qed.

(** Rounding a positive value that is not below the smallest subnormal
    gives a non-zero float. *)
Lemma binary_round_aux_pos (sx : bool) (m e : Z) (l : location) :
  0 < m -> e <= fexp64 (Zdigits2 m + e) -> -1074 < Zdigits2 m + e ->
  match binary_round_aux prec emax sx m e l with
  | S754_finite s _ _ | S754_infinity s => s = sx
  | _ => False
  end.
Proof.
  intros Hm He Hd.
  destruct (binary_round_aux_spec sx m e l ltac:(lia)) as [m2 [Hm2 [_ [_ ->]]]].
  rewrite (Z.max_l _ e) in * by exact He.
  set (E := fexp64 (Zdigits2 m + e)) in *.
  pose proof (Zdigits2_bounds m Hm) as [Hl _].
  assert (Hn : 0 <= E - e <= Zdigits2 m - 1).
  { unfold E in *. rewrite fexp64_eq in *. lia. }
  assert (H1 : 1 <= m / 2 ^ (E - e)).
  { apply Z.div_le_lower_bound; [apply Z.pow_pos_nonneg; lia|].
    rewrite Z.mul_1_r. eapply Z.le_trans; [|exact Hl].
    apply Z.pow_le_mono_r; lia. }
  unfold result_of. fold E.
  destruct (Z.eqb_spec m2 0); [lia|].
  destruct (m2 <? 2 ^ 53); [destruct (E <=? 971)|destruct (E + 1 <=? 971)];
    reflexivity.
Qed.

(** *** Alignment before rounding *)

Lemma iter_xO_value (m d : positive) :
  Z.pos (Pos.iter xO m d) = Z.pos m * 2 ^ Z.pos d.
Proof.
  induction d as [|d IH] using Pos.peano_ind.
  - cbn. lia.
  - rewrite Pos.iter_succ, Pos2Z.inj_xO, IH, Pos2Z.inj_succ, Z.pow_succ_r by lia.
    ring.
Qed.

Lemma iter_xO_digits (m d : positive) :
  Z.pos (digits2_pos (Pos.iter xO m d)) = Z.pos (digits2_pos m) + Z.pos d.
Proof.
  induction d as [|d IH] using Pos.peano_ind.
  - cbn. lia.
  - rewrite Pos.iter_succ. cbn [digits2_pos]. lia.
Qed.

Lemma shl_align_spec (mx : positive) (ex ex' : Z) :
  let ez := Z.min ex ex' in
  snd (shl_align mx ex ex') = ez /\
  Z.pos (fst (shl_align mx ex ex')) = Z.pos mx * 2 ^ (ex - ez) /\
  Z.pos (digits2_pos (fst (shl_align mx ex ex'))) =
    Z.pos (digits2_pos mx) + (ex - ez).
Proof.
  intros ez. unfold shl_align.
  destruct (ex' - ex) as [|d|d] eqn:E; cbn [fst snd].
  - replace (ex - ez) with 0 by lia. cbn. lia.
  - replace (ex - ez) with 0 by lia. cbn. lia.
  - replace (ex - ez) with (Z.pos d) by lia.
    rewrite iter_xO_value, iter_xO_digits. lia.
Qed.

Lemma binary_round_eq (sx : bool) (z : positive) (e : Z) :
  let D := Z.pos (digits2_pos z) + e in
  let ez := Z.min e (fexp64 D) in
  exists mz,
    binary_round prec emax sx z e =
      binary_round_aux prec emax sx (Z.pos mz) ez loc_Exact /\
    Z.pos mz = Z.pos z * 2 ^ (e - ez) /\
    Z.pos (digits2_pos mz) + ez = D.
Proof.
  intros D ez. unfold binary_round.
  pose proof (shl_align_spec z e (fexp64 D)) as H. cbv zeta in H.
  fold D. destruct (shl_align z e (fexp64 D)) as [mz e'].
  cbn [fst snd] in H. destruct H as [-> [H1 H2]].
  exists mz. fold ez in H1, H2 |- *. repeat split; [exact H1|lia].
Qed.

Lemma binary_round_sign (sx : bool) (z : positive) (e : Z) :
  has_sign sx (binary_round prec emax sx z e).
Proof.
  destruct (binary_round_eq sx z e) as [mz [-> _]].
  apply binary_round_aux_sign. lia.
Qed.

Lemma binary_round_le (sx : bool) (z : positive) (e : Z)
    (mB : positive) (eB c : Z) :
  bounded prec emax mB eB = true ->
  1074 <= c -> -1074 <= e ->
  Z.pos z * 2 ^ (e + c) <= Z.pos mB * 2 ^ (eB + c) ->
  mag_le (binary_round prec emax sx z e) mB eB.
Proof.
  intros HB Hc He Hle.
  destruct (bounded_spec mB eB HB) as [HeB _].
  destruct (binary_round_eq sx z e) as [mz [-> [Hmz Hd]]].
  cbv zeta in Hmz, Hd.
  set (D := Z.pos (digits2_pos z) + e) in *.
  set (ez := Z.min e (fexp64 D)) in *.
  assert (Hez : -1074 <= ez <= e) by (unfold ez; rewrite fexp64_eq; lia).
  apply binary_round_aux_le with (c := c); try lia.
  - cbn [Zdigits2]. rewrite Hd. unfold ez. lia.
  - exact HB.
  - rewrite Hmz, <- Z.mul_assoc, <- Z.pow_add_r by lia.
    replace (e - ez + (ez + c)) with (e + c) by lia. exact Hle.
  - intros H. now elim H.
Qed.

Lemma binary_round_pos (sx : bool) (z : positive) (e : Z) :
  -1074 <= e ->
  match binary_round prec emax sx z e with
  | S754_finite s _ _ | S754_infinity s => s = sx
  | _ => False
  end.
Proof.
  intros He.
  destruct (binary_round_eq sx z e) as [mz [-> [Hmz Hd]]].
  cbv zeta in Hmz, Hd.
  apply binary_round_aux_pos; [lia| |].
  - cbn [Zdigits2]. rewrite Hd. lia.
  - cbn [Zdigits2]. rewrite Hd. lia.
Qed.

(** The order on magnitudes read on the values. *)
Lemma lex_le_value (m : positive) (e : Z) (mB : positive) (eB c : Z) :
  bounded prec emax m e = true -> bounded prec emax mB eB = true ->
  1074 <= c ->
  e < eB \/ (e = eB /\ Z.pos m <= Z.pos mB) ->
  Z.pos m * 2 ^ (e + c) <= Z.pos mB * 2 ^ (eB + c).
Proof.
  intros Hm HB Hc H.
  destruct (bounded_spec m e Hm) as [He [Hd _]].
  destruct (bounded_spec mB eB HB) as [HeB [_ [HdB _]]].
  destruct H as [Hlt|[-> Hle]].
  - pose proof (digits2_bounds m) as [_ Hu].
    pose proof (digits2_bounds mB) as [Hl _].
    rewrite HdB in Hl by lia. change (2 ^ (53 - 1)) with (2 ^ 52) in Hl.
    assert (Hm53 : Z.pos m < 2 ^ 53).
    { eapply Z.lt_le_trans; [exact Hu|]. apply Z.pow_le_mono_r; lia. }
    assert (Hp : 0 < 2 ^ (e + c)) by (apply Z.pow_pos_nonneg; lia).
    assert (Hq : 2 * 2 ^ (e + c) <= 2 ^ (eB + c)).
    { rewrite <- Z.pow_succ_r by lia. apply Z.pow_le_mono_r; lia. }
    change (2 ^ 53) with (2 * 2 ^ 52) in Hm53.
    apply Z.le_trans with (2 ^ 52 * (2 * 2 ^ (e + c))); [nia|].
    apply Z.le_trans with (2 ^ 52 * 2 ^ (eB + c)).
    + apply Z.mul_le_mono_nonneg_l; [lia|exact Hq].
    + apply Z.mul_le_mono_nonneg_r; lia.
  - apply Z.mul_le_mono_nonneg_r; [|lia].
    apply Z.pow_nonneg. lia.
Qed.

Lemma value_le_lex (m : positive) (e : Z) (mB : positive) (eB c : Z) :
  bounded prec emax m e = true -> bounded prec emax mB eB = true ->
  1074 <= c ->
  Z.pos m * 2 ^ (e + c) <= Z.pos mB * 2 ^ (eB + c) ->
  e < eB \/ (e = eB /\ Z.pos m <= Z.pos mB).
Proof.
  intros Hm HB Hc H.
  destruct (Z.lt_trichotomy e eB) as [Hlt|[->|Hgt]]; [now left| |].
  - right. split; [reflexivity|].
    destruct (bounded_spec mB eB HB) as [HeB _].
    assert (Hp : 0 < 2 ^ (eB + c)) by (apply Z.pow_pos_nonneg; lia).
    nia.
  - exfalso.
    assert (Hs : eB < e \/ (eB = e /\ Z.pos mB + 1 <= Z.pos m)) by (left; lia).
    destruct (bounded_spec m e Hm) as [He [_ [Hd _]]].
    destruct (bounded_spec mB eB HB) as [HeB [HdB _]].
    pose proof (digits2_bounds mB) as [_ Hu].
    pose proof (digits2_bounds m) as [Hl _].
    rewrite Hd in Hl by lia. change (2 ^ (53 - 1)) with (2 ^ 52) in Hl.
    assert (HmB53 : Z.pos mB < 2 ^ 53).
    { eapply Z.lt_le_trans; [exact Hu|]. apply Z.pow_le_mono_r; lia. }
    assert (Hp : 0 < 2 ^ (eB + c)) by (apply Z.pow_pos_nonneg; lia).
    assert (Hq : 2 * 2 ^ (eB + c) <= 2 ^ (e + c)).
    { rewrite <- Z.pow_succ_r by lia. apply Z.pow_le_mono_r; lia. }
    change (2 ^ 53) with (2 * 2 ^ 52) in HmB53.
    assert (Z.pos mB * 2 ^ (eB + c) < 2 ^ 52 * (2 * 2 ^ (eB + c))) by nia.
    assert (2 ^ 52 * (2 * 2 ^ (eB + c)) <= 2 ^ 52 * 2 ^ (e + c))
      by (apply Z.mul_le_mono_nonneg_l; lia).
    assert (2 ^ 52 * 2 ^ (e + c) <= Z.pos m * 2 ^ (e + c)).
    { apply Z.mul_le_mono_nonneg_r; [|lia]. apply Z.pow_nonneg. lia. }
    lia.
Qed.

(** *** Signs of sums, quotients and square roots *)

Lemma has_sign_nonneg (x : spec_float) : has_sign false x -> nonneg_or_nan x.
Proof. destruct x; cbn; auto. Qed.

Lemma SFadd_pos_pos (mx : positive) (ex : Z) (my : positive) (ey : Z) :
  exists z,
    SFadd prec emax (S754_finite false mx ex) (S754_finite false my ey) =
    binary_round prec emax false z (Z.min ex ey).
Proof.
  cbn [SFadd cond_Zopp]. eexists. reflexivity.
Qed.

Ltac case_signs :=
  repeat match goal with s : bool |- _ => destruct s end.

Lemma SFadd_nonneg (x y : spec_float) :
  nonneg_or_nan x -> nonneg_or_nan y -> nonneg_or_nan (SFadd prec emax x y).
Proof.
  destruct x as [sx|sx| |sx mx ex], y as [sy|sy| |sy my ey];
    cbn [nonneg_or_nan]; intros Hx Hy; subst;
    try solve [case_signs; cbn; auto].
  destruct (SFadd_pos_pos mx ex my ey) as [z ->].
  apply has_sign_nonneg, binary_round_sign.
Qed.

Lemma SFadd_zero_inv (x y : spec_float) :
  valid_binary x = true -> valid_binary y = true ->
  nonneg_or_nan x -> nonneg_or_nan y ->
  is_zeroSF (SFadd prec emax x y) -> is_zeroSF x /\ is_zeroSF y.
Proof.
  destruct x as [sx|sx| |sx mx ex], y as [sy|sy| |sy my ey];
    cbn [nonneg_or_nan valid_binary]; intros Vx Vy Hx Hy; subst;
    try solve [case_signs; cbn; tauto].
  destruct (SFadd_pos_pos mx ex my ey) as [z ->].
  destruct (bounded_spec mx ex Vx) as [Hex _].
  destruct (bounded_spec my ey Vy) as [Hey _].
  pose proof (binary_round_pos false z (Z.min ex ey) ltac:(lia)) as H.
  destruct (binary_round prec emax false z (Z.min ex ey)); cbn; tauto.
Qed.

Lemma SFdiv_core_nonneg (mx : positive) (ex : Z) (my : positive) (ey : Z) :
  let '(mz, _, _) := SFdiv_core_binary prec emax (Z.pos mx) ex (Z.pos my) ey in
  0 <= mz.
Proof.
  unfold SFdiv_core_binary.
  set (s := _ - _ - _).
  set (m' := match s with Z.pos _ => _ | Z0 => _ | Z.neg _ => _ end).
  assert (Hm' : 0 <= m').
  { unfold m'. destruct s; [lia| |lia]. apply Z.shiftl_nonneg. lia. }
  pose proof (Z_div_mod m' (Z.pos my) ltac:(lia)) as H.
  destruct (Z.div_eucl m' (Z.pos my)) as [q r]. destruct H as [H1 H2].
  nia.
Qed.

Lemma SFdiv_nonneg (x : spec_float) (my : positive) (ey : Z) :
  nonneg_or_nan x ->
  nonneg_or_nan (SFdiv prec emax x (S754_finite false my ey)).
Proof.
  destruct x as [sx|sx| |sx mx ex];
    cbn [nonneg_or_nan]; intros Hx; subst;
    try solve [case_signs; cbn; auto].
  cbn [SFdiv xorb].
  pose proof (SFdiv_core_nonneg mx ex my ey) as H.
  destruct (SFdiv_core_binary prec emax (Z.pos mx) ex (Z.pos my) ey) as [[mz ez] lz].
  apply has_sign_nonneg, binary_round_aux_sign. exact H.
Qed.

Lemma SFsqrt_nonneg (x : spec_float) : nonneg_or_nan (SFsqrt prec emax x).
Proof.
  destruct x as [sx|[|]| |[|] mx ex]; try exact I; try reflexivity.
  cbn [SFsqrt]. unfold SFsqrt_core_binary.
  set (m' := match _ - _ with Z.pos _ => _ | Z0 => _ | Z.neg _ => _ end).
  pose proof (Z.sqrtrem_spec m') as H.
  assert (Hm' : 0 <= m').
  { unfold m'. destruct (_ - _); [lia| |lia]. apply Z.shiftl_nonneg. lia. }
  specialize (H Hm'). destruct (Z.sqrtrem m') as [q r].
  apply has_sign_nonneg, binary_round_aux_sign. nia.
Qed.

Local Open Scope float_scope.

(** *** From the specification to the primitive operations *)

Lemma ltb_zero_NonNeg (f : float) : (f <? 0) = false -> NonNeg f.
Proof.
  unfold NonNeg. rewrite ltb_spec. change (Prim2SF 0) with (S754_zero false).
  destruct (Prim2SF f) as [s|[|]| |[|] m e]; cbn; intuition congruence.
Qed.

Lemma NonNeg_ltb_zero (f : float) : NonNeg f -> (f <? 0) = false.
Proof.
  unfold NonNeg. rewrite ltb_spec. change (Prim2SF 0) with (S754_zero false).
  destruct (Prim2SF f) as [s|[|]| |[|] m e]; cbn; intuition congruence.
Qed.

Lemma eqb_zero_IsZero (f : float) : (f =? 0) = true -> IsZero f.
Proof.
  unfold IsZero. rewrite eqb_spec. change (Prim2SF 0) with (S754_zero false).
  destruct (Prim2SF f) as [s|[|]| |[|] m e]; cbn; intuition congruence.
Qed.

Lemma add_NonNeg (x y : float) : NonNeg x -> NonNeg y -> NonNeg (x + y).
Proof. unfold NonNeg. rewrite add_spec. apply SFadd_nonneg. Qed.

Lemma half_NonNeg (x : float) : NonNeg x -> NonNeg (x / 2).
Proof.
  unfold NonNeg. rewrite div_spec.
  change (Prim2SF 2) with (S754_finite false 4503599627370496 (-51)).
  apply SFdiv_nonneg.
Qed.

Lemma add_IsZero_inv (x y : float) :
  NonNeg x -> NonNeg y -> IsZero (x + y) -> IsZero x /\ IsZero y.
Proof.
  unfold NonNeg, IsZero. rewrite add_spec.
  apply SFadd_zero_inv; apply Prim2SF_valid.
Qed.

Lemma div_IsZero (x y : float) : IsZero x -> IsZero y -> x / y = nan.
Proof.
  unfold IsZero. intros Hx Hy. apply Prim2SF_inj. rewrite div_spec.
  destruct (Prim2SF x), (Prim2SF y); cbn in Hx, Hy; tauto || reflexivity.
Qed.

(** Any quotient by a zero is NaN or an infinity. *)
Lemma div_by_zero (x y : float) :
  IsZero y -> is_nan (x / y) = true \/ is_infinity (x / y) = true.
Proof.
  unfold IsZero. intros Hy.
  assert (H : Prim2SF (x / y) = S754_nan \/
              exists s, Prim2SF (x / y) = S754_infinity s).
  { rewrite div_spec.
    destruct (Prim2SF x) as [sx|sx| |sx mx ex], (Prim2SF y) as [sy|sy| |sy my ey];
      cbn in Hy; try tauto; cbn; eauto. }
  destruct H as [H|[s H]].
  - left. apply (f_equal SF2Prim) in H. rewrite SF2Prim_Prim2SF in H.
    rewrite H. reflexivity.
  - right. apply (f_equal SF2Prim) in H. rewrite SF2Prim_Prim2SF in H.
    rewrite H. destruct s; reflexivity.
Qed.

(** [<?] is asymmetric. *)
Lemma SFcompare_antisym (x y : spec_float) :
  SFcompare y x = option_map CompOpp (SFcompare x y).
Proof.
  destruct x as [sx|sx| |sx mx ex], y as [sy|sy| |sy my ey];
    try solve [case_signs; reflexivity].
  cbn [SFcompare option_map].
  rewrite (Z.compare_antisym ex ey).
  pose proof (Pos.compare_cont_antisym mx my Eq) as H. cbn [CompOpp] in H.
  rewrite <- H.
  destruct sx, sy, (ex ?= ey)%Z; cbn [CompOpp]; try reflexivity;
    destruct (Pos.compare_cont Eq mx my); reflexivity.
Qed.

Lemma ltb_asym (x y : float) : (x <? y) = true -> (y <? x) = false.
Proof.
  rewrite !ltb_spec. unfold SFltb. rewrite (SFcompare_antisym (Prim2SF x) (Prim2SF y)).
  destruct (SFcompare (Prim2SF x) (Prim2SF y)) as [[| |]|]; cbn; congruence.
Qed.

Local Open Scope Z_scope.

(** *** Magnitude bounds for the operations *)

Lemma Zdigits2_gt (m k : Z) : 0 <= k -> 2 ^ k <= m -> k < Zdigits2 m.
Proof.
  intros Hk H.
  assert (Hm : 0 < m).
  { assert (0 < 2 ^ k) by (apply Z.pow_pos_nonneg; lia). lia. }
  pose proof (Zdigits2_bounds m Hm) as [_ Hu].
  assert (Hlt : 2 ^ k < 2 ^ Zdigits2 m) by lia.
  apply Z.pow_lt_mono_r_iff in Hlt; [lia|lia|].
  apply Zdigits2_nonneg.
Qed.

Lemma mag_le_weaken (x : spec_float) (mB : positive) (eB : Z)
    (mC : positive) (eC : Z) :
  eB < eC \/ (eB = eC /\ Z.pos mB <= Z.pos mC) ->
  mag_le x mB eB -> mag_le x mC eC.
Proof. destruct x; cbn; lia. Qed.

(** Subtraction: the difference of two floats of magnitude at most [B]
    has magnitude at most [2 * B]. *)
Lemma SFsub_mag (x y : spec_float) (mB : positive) (eB : Z) :
  valid_binary x = true -> valid_binary y = true ->
  bounded prec emax mB eB = true -> bounded prec emax mB (eB + 1) = true ->
  mag_le x mB eB -> mag_le y mB eB ->
  mag_le (SFsub prec emax x y) mB (eB + 1).
Proof.
  intros Vx Vy HB HB' Hx Hy.
  destruct x as [sx|sx| |sx mx ex], y as [sy|sy| |sy my ey];
    cbn [mag_le] in Hx, Hy; try tauto;
    try solve [case_signs; cbn; lia].
  cbn [valid_binary] in Vx, Vy.
  destruct (bounded_spec mx ex Vx) as [Hex _].
  destruct (bounded_spec my ey Vy) as [Hey _].
  destruct (bounded_spec mB eB HB) as [HeB _].
  pose proof (lex_le_value mx ex mB eB 1074 Vx HB ltac:(lia) Hx) as Vxle.
  pose proof (lex_le_value my ey mB eB 1074 Vy HB ltac:(lia) Hy) as Vyle.
  cbn [SFsub].
  set (ez := Z.min ex ey).
  pose proof (shl_align_spec mx ex ez) as [_ [Hmx _]].
  pose proof (shl_align_spec my ey ez) as [_ [Hmy _]].
  replace (Z.min ex ez) with ez in Hmx by (unfold ez; lia).
  replace (Z.min ey ez) with ez in Hmy by (unfold ez; lia).
  set (mx' := fst (shl_align mx ex ez)) in *.
  set (my' := fst (shl_align my ey ez)) in *.
  assert (Hez : -1074 <= ez <= ex /\ ez <= ey) by (unfold ez; lia).
  assert (Hsum : (Z.pos mx' + Z.pos my') * 2 ^ (ez + 1074) <=
                 Z.pos mB * 2 ^ (eB + 1 + 1074)).
  { rewrite Hmx, Hmy, Z.mul_add_distr_r, <- !Z.mul_assoc, <- !Z.pow_add_r by lia.
    replace (ex - ez + (ez + 1074)) with (ex + 1074) by lia.
    replace (ey - ez + (ez + 1074)) with (ey + 1074) by lia.
    replace (eB + 1 + 1074) with (Z.succ (eB + 1074)) by lia.
    rewrite Z.pow_succ_r by lia. lia. }
  assert (Hp : 0 < 2 ^ (ez + 1074)) by (apply Z.pow_pos_nonneg; lia).
  destruct (cond_Zopp sx (Z.pos mx') - cond_Zopp sy (Z.pos my')) as [|z|z] eqn:Ez;
    cbn [binary_normalize mag_le]; [exact I| |];
    (apply binary_round_le with (c := 1074); [exact HB'|lia|lia|];
     eapply Z.le_trans; [|exact Hsum];
     apply Z.mul_le_mono_nonneg_r; [lia|];
     destruct sx, sy; cbn [cond_Zopp] in Ez; lia).
Qed.

(** Multiplication by a normal float. *)
Lemma SFmul_mag (x : spec_float) (sy : bool) (my : positive) (ey : Z)
    (mB : positive) (eB : Z) (mT : positive) (eT : Z) :
  valid_binary x = true ->
  bounded prec emax my ey = true -> 2 ^ 52 <= Z.pos my ->
  bounded prec emax mB eB = true -> bounded prec emax mT eT = true ->
  Z.pos mB * Z.pos my * 2 ^ (eB + ey + 3000) <= Z.pos mT * 2 ^ (eT + 3000) ->
  mag_le x mB eB ->
  mag_le (SFmul prec emax x (S754_finite sy my ey)) mT eT.
Proof.
  intros Vx Vy Hmy HB HT Hc Hx.
  destruct x as [sx|sx| |sx mx ex]; cbn [mag_le] in Hx; try tauto;
    try exact I.
  cbn [valid_binary] in Vx.
  destruct (bounded_spec mx ex Vx) as [Hex _].
  destruct (bounded_spec my ey Vy) as [Hey _].
  destruct (bounded_spec mB eB HB) as [HeB _].
  destruct (bounded_spec mT eT HT) as [HeT _].
  cbn [SFmul].
  apply binary_round_aux_le with (c := 3000); try lia; try exact HT.
  - assert (Hd : 52 < Zdigits2 (Z.pos (mx * my))).
    { apply Zdigits2_gt; [lia|]. rewrite Pos2Z.inj_mul. nia. }
    rewrite fexp64_eq. lia.
  - eapply Z.le_trans; [|exact Hc].
    pose proof (lex_le_value mx ex mB eB (ey + 3000) Vx HB ltac:(lia) Hx) as V.
    rewrite Pos2Z.inj_mul.
    replace (ex + ey + 3000) with (ex + (ey + 3000)) by lia.
    replace (eB + ey + 3000) with (eB + (ey + 3000)) by lia.
    nia.
  - intros H. now elim H.
Qed.

(** Division of finite floats whose exact quotient is below [B]. *)
Lemma SFdiv_mag (sx : bool) (mx : positive) (ex : Z) (sy : bool)
    (my : positive) (ey : Z) (mB : positive) (eB : Z) :
  bounded prec emax mx ex = true -> bounded prec emax my ey = true ->
  bounded prec emax mB eB = true ->
  Z.pos mx * 2 ^ (ex - ey + 3000) < Z.pos mB * Z.pos my * 2 ^ (eB + 3000) ->
  mag_le (SFdiv prec emax (S754_finite sx mx ex) (S754_finite sy my ey)) mB eB.
Proof.
  intros Vx Vy HB Hlt.
  destruct (bounded_spec mx ex Vx) as [Hex _].
  destruct (bounded_spec my ey Vy) as [Hey _].
  destruct (bounded_spec mB eB HB) as [HeB _].
  cbn [SFdiv]. unfold SFdiv_core_binary. cbn [Zdigits2].
  set (d1 := Z.pos (digits2_pos mx)). set (d2 := Z.pos (digits2_pos my)).
  set (e' := Z.min (fexp64 (d1 + ex - (d2 + ey))) (ex - ey)).
  set (s := ex - ey - e').
  assert (Hs : 0 <= s) by (unfold s, e'; lia).
  assert (He' : -2045 <= e') by (unfold e'; rewrite fexp64_eq; lia).
  set (m' := match s with Z.pos _ => Z.shiftl (Z.pos mx) s | Z0 => Z.pos mx
                     | Z.neg _ => Z0 end).
  assert (Hm' : m' = Z.pos mx * 2 ^ s).
  { unfold m'. destruct s as [|p|p]; [cbn; lia| |lia].
    rewrite Z.shiftl_mul_pow2; lia. }
  pose proof (Z_div_mod m' (Z.pos my) ltac:(lia)) as Hdm.
  destruct (Z.div_eucl m' (Z.pos my)) as [q r]. destruct Hdm as [Hq Hr].
  assert (Hps : 0 < 2 ^ s) by (apply Z.pow_pos_nonneg; lia).
  assert (Hq0 : 0 <= q) by nia.
  pose proof (digits2_bounds mx) as [Hmxl _]. fold d1 in Hmxl.
  pose proof (digits2_bounds my) as [_ Hmyu]. fold d2 in Hmyu.
  assert (Hstrict : q * 2 ^ (e' + 3000) < Z.pos mB * 2 ^ (eB + 3000)).
  { assert (Hp : 0 < 2 ^ (e' + 3000)) by (apply Z.pow_pos_nonneg; lia).
    assert (H1 : q * Z.pos my * 2 ^ (e' + 3000) <=
                 Z.pos mx * 2 ^ (ex - ey + 3000)).
    { replace (ex - ey + 3000) with (s + (e' + 3000)) by (unfold s; lia).
      rewrite (Z.pow_add_r 2 s (e' + 3000)) by lia.
      rewrite Z.mul_assoc, <- Hm'.
      apply Z.mul_le_mono_nonneg_r; lia. }
    assert (H2 : q * 2 ^ (e' + 3000) * Z.pos my <
                 Z.pos mB * 2 ^ (eB + 3000) * Z.pos my).
    { lia. }
    apply Z.mul_lt_mono_pos_r in H2; lia. }
  apply binary_round_aux_le with (c := 3000); try lia; try exact HB.
  assert (Hdq : d1 + s - d2 <= Zdigits2 q).
  { pose proof (Zdigits2_nonneg q).
    destruct (Z.le_gt_cases (d1 + s - d2) 0) as [|Hpos]; [lia|].
    assert (Hk : d1 + s - d2 - 1 < Zdigits2 q); [|lia].
    apply Zdigits2_gt; [lia|].
    assert (Hle : Z.pos my * 2 ^ (d1 + s - d2 - 1) <= m').
    { rewrite Hm'.
      apply Z.le_trans with (2 ^ d2 * 2 ^ (d1 + s - d2 - 1)).
      - apply Z.mul_le_mono_nonneg_r; [apply Z.pow_nonneg; lia|lia].
      - rewrite <- Z.pow_add_r by (unfold d2; lia).
        replace (d2 + (d1 + s - d2 - 1)) with (d1 - 1 + s) by lia.
        rewrite Z.pow_add_r by (unfold d1; lia).
        apply Z.mul_le_mono_nonneg_r; lia. }
    assert (Hqd : q = m' / Z.pos my).
    { apply Z.div_unique with r; lia. }
    rewrite Hqd. apply Z.div_le_lower_bound; lia. }
  assert (Ee' : e' = Z.min (Z.max (d1 + ex - (d2 + ey) - 53) (-1074)) (ex - ey))
    by (unfold e'; now rewrite fexp64_eq).
  assert (Es : s = ex - ey - e') by reflexivity.
  rewrite fexp64_eq. lia.
Qed.

(** *** The arithmetic of [calculateAngle] *)

Lemma compare_cont_Eq_Z (p q : positive) :
  Pos.compare_cont Eq p q = (Z.pos p ?= Z.pos q).
Proof. reflexivity. Qed.

Lemma pi_range_Mag (a : float) :
  (- Math_PI <=? a)%float = true -> (a <=? Math_PI)%float = true -> Mag a m_pi (-51).
Proof.
  unfold Mag. rewrite !leb_spec.
  change (Prim2SF Math_PI) with (S754_finite false m_pi (-51)).
  change (Prim2SF (- Math_PI)) with (S754_finite true m_pi (-51)).
  unfold SFleb. intros Hlo Hhi.
  destruct (Prim2SF a) as [s|[|]| |[|] m e]; cbn [mag_le SFcompare] in *;
    try discriminate; try exact I.
  - rewrite compare_cont_Eq_Z in Hlo.
    destruct (Z.compare_spec (-51) e) as [Ee|Hlt|Hgt];
      try discriminate; [|lia].
    destruct (Z.compare_spec (Z.pos m_pi) (Z.pos m)); try discriminate; lia.
  - rewrite compare_cont_Eq_Z in Hhi.
    destruct (Z.compare_spec e (-51)) as [Ee|Hlt|Hgt];
      try discriminate; [|lia].
    destruct (Z.compare_spec (Z.pos m) (Z.pos m_pi)); try discriminate; lia.
Qed.

Lemma sub_Mag (a b : float) :
  Mag a m_pi (-51) -> Mag b m_pi (-51) -> Mag (a - b) m_pi (-50).
Proof.
  unfold Mag. rewrite sub_spec. intros Ha Hb.
  apply (SFsub_mag _ _ m_pi (-51)); try apply Prim2SF_valid;
    try reflexivity; assumption.
Qed.

Lemma mul_180_Mag (r : float) :
  Mag r m_pi (-50) -> Mag (r * 180) m_T (-42).
Proof.
  unfold Mag. rewrite mul_spec. intros Hr.
  change (Prim2SF 180) with (S754_finite false m_180 (-45)).
  apply (SFmul_mag _ false m_180 (-45) m_pi (-50));
    try apply Prim2SF_valid; try reflexivity; try assumption.
  - apply Z.leb_le. vm_compute. reflexivity.
  - apply Z.leb_le. vm_compute. reflexivity.
Qed.

Lemma div_pi_Mag (t : float) :
  Mag t m_T (-42) -> Mag (t / Math_PI) m_180 (-44).
Proof.
  unfold Mag. rewrite div_spec. intros Ht.
  change (Prim2SF Math_PI) with (S754_finite false m_pi (-51)).
  pose proof (Prim2SF_valid t) as Vt.
  destruct (Prim2SF t) as [s|s| |s m e]; cbn [mag_le] in Ht; try tauto;
    try exact I.
  cbn [valid_binary] in Vt.
  destruct (Z.eq_dec e (-42)) as [->|He];
    [destruct (Pos.eq_dec m m_T) as [->|Hm]|].
  - destruct s; vm_compute; right; (split; [reflexivity|discriminate]).
  - assert (Hlex : -42 < -42 \/ (-42 = -42 /\ Z.pos m <= Z.pos (m_T - 1))).
    { right. split; [reflexivity|]. unfold m_T in *. lia. }
    pose proof (lex_le_value m (-42) (m_T - 1) (-42) 3051 Vt eq_refl
                  ltac:(lia) Hlex) as V.
    apply SFdiv_mag; try reflexivity; try assumption.
    eapply Z.le_lt_trans; [exact V|].
    apply Z.ltb_lt. vm_compute. reflexivity.
  - assert (Hlex : e < -42 \/ (e = -42 /\ Z.pos m <= Z.pos (m_T - 1))) by lia.
    pose proof (lex_le_value m e (m_T - 1) (-42) 3051 Vt eq_refl
                  ltac:(lia) Hlex) as V.
    apply SFdiv_mag; try reflexivity; try assumption.
    replace (e - -51 + 3000) with (e + 3051) by lia.
    eapply Z.le_lt_trans; [exact V|].
    apply Z.ltb_lt. vm_compute. reflexivity.
Qed.

Lemma pos_le_intro (x : spec_float) (mB : positive) (eB : Z) :
  has_sign false x -> mag_le x mB eB -> pos_le x mB eB.
Proof. destruct x as [s|s| |[|] m e]; cbn; intros; try tauto; discriminate. Qed.

Lemma SFabs_pos_le (x : spec_float) (mB : positive) (eB : Z) :
  mag_le x mB eB -> pos_le (SFabs x) mB eB.
Proof. destruct x; cbn; tauto. Qed.

Lemma pos_le_leb (x B : float) (mB : positive) (eB : Z) :
  Prim2SF B = S754_finite false mB eB ->
  pos_le (Prim2SF x) mB eB ->
  (0 <=? x)%float = true /\ (x <=? B)%float = true.
Proof.
  intros HB Hx. rewrite !leb_spec, HB.
  change (Prim2SF 0) with (S754_zero false). unfold SFleb.
  destruct (Prim2SF x) as [s|s| |[|] m e]; cbn [pos_le SFcompare] in *;
    try tauto.
  rewrite compare_cont_Eq_Z. split; [reflexivity|].
  destruct (Z.compare_spec e eB); [|reflexivity|lia].
  destruct (Z.compare_spec (Z.pos m) (Z.pos mB)); try reflexivity. lia.
Qed.

Lemma not_above_180 (x : spec_float) :
  pos_le x m_180 (-44) ->
  SFltb (S754_finite false m_180 (-45)) x = false ->
  pos_le x m_180 (-45).
Proof.
  unfold SFltb.
  destruct x as [s|s| |[|] m e]; cbn [pos_le SFcompare]; try tauto.
  rewrite compare_cont_Eq_Z. intros _.
  destruct (Z.compare_spec (-45) e); try discriminate; [|lia].
  destruct (Z.compare_spec (Z.pos m_180) (Z.pos m)); try discriminate; lia.
Qed.

Lemma above_180 (x : spec_float) :
  pos_le x m_180 (-44) ->
  SFltb (S754_finite false m_180 (-45)) x = true ->
  exists m e, x = S754_finite false m e /\
    (e = -44 /\ Z.pos m <= Z.pos m_180 \/ e = -45 /\ Z.pos m_180 < Z.pos m).
Proof.
  unfold SFltb.
  destruct x as [s|s| |[|] m e]; cbn [pos_le SFcompare]; try tauto;
    try discriminate.
  rewrite compare_cont_Eq_Z. intros Hle H. exists m, e. split; [reflexivity|].
  destruct (Z.compare_spec (-45) e); try discriminate; [|lia].
  destruct (Z.compare_spec (Z.pos m_180) (Z.pos m)); try discriminate; lia.
Qed.

Lemma SFsub_360 (m : positive) (e : Z) :
  bounded prec emax m e = true ->
  (e = -44 /\ Z.pos m <= Z.pos m_180 \/ e = -45 /\ Z.pos m_180 < Z.pos m) ->
  pos_le (SFsub prec emax (S754_finite false m_180 (-44)) (S754_finite false m e))
    m_180 (-45).
Proof.
  intros Vm H.
  destruct (bounded_spec m e Vm) as [_ [Hd [Hd' _]]].
  pose proof (digits2_bounds m) as [Hl Hu].
  rewrite Hd' in Hl, Hu by lia.
  change (2 ^ (53 - 1)) with 4503599627370496 in Hl.
  change (2 ^ 53) with 9007199254740992 in Hu.
  destruct H as [[-> Hm]|[-> Hm]]; cbn [SFsub cond_Zopp].
  - change (Z.min (-44) (-44)) with (-44).
    change (fst (shl_align m_180 (-44) (-44))) with m_180.
    change (fst (shl_align m (-44) (-44))) with m.
    destruct (Z.pos m_180 - Z.pos m) as [|z|z] eqn:Ez; cbn [binary_normalize];
      [exact I| |lia].
    apply pos_le_intro; [apply binary_round_sign|].
    apply binary_round_le with (c := 1074); try reflexivity; try lia.
    change (2 ^ (-44 + 1074)) with (2 * 2 ^ (-45 + 1074)).
    assert (0 < 2 ^ (-45 + 1074)) by (apply Z.pow_pos_nonneg; lia).
    unfold m_180 in *. nia.
  - change (Z.min (-44) (-45)) with (-45).
    change (fst (shl_align m (-45) (-45))) with m.
    change (Z.pos (fst (shl_align m_180 (-44) (-45)))) with (2 * Z.pos m_180).
    destruct (2 * Z.pos m_180 - Z.pos m) as [|z|z] eqn:Ez; cbn [binary_normalize];
      [exact I| |unfold m_180 in *; lia].
    apply pos_le_intro; [apply binary_round_sign|].
    apply binary_round_le with (c := 1074); try reflexivity; try lia.
Qed.

Local Open Scope float_scope.

Theorem angle_of_range (a b : float) :
  (- Math_PI <=? a) = true -> (a <=? Math_PI) = true ->
  (- Math_PI <=? b) = true -> (b <=? Math_PI) = true ->
  (0 <=? angle_of a b) = true /\ (angle_of a b <=? 180) = true.
Proof.
  intros Ha1 Ha2 Hb1 Hb2.
  pose proof (div_pi_Mag _ (mul_180_Mag _ (sub_Mag _ _
                (pi_range_Mag a Ha1 Ha2) (pi_range_Mag b Hb1 Hb2)))) as Hu.
  unfold angle_of. cbv zeta.
  set (u := (a - b) * 180 / Math_PI) in *.
  assert (Hangle : pos_le (Prim2SF (abs u)) m_180 (-44)).
  { rewrite abs_spec. apply SFabs_pos_le. exact Hu. }
  destruct (180 <? abs u) eqn:Hcmp.
  - rewrite ltb_spec in Hcmp.
    change (Prim2SF 180) with (S754_finite false m_180 (-45)) in Hcmp.
    destruct (above_180 _ Hangle Hcmp) as [m [e [Hx Hme]]].
    apply (pos_le_leb _ 180 m_180 (-45)); [reflexivity|].
    rewrite sub_spec, Hx.
    change (Prim2SF 360) with (S754_finite false m_180 (-44)).
    apply SFsub_360; [|exact Hme].
    pose proof (Prim2SF_valid (abs u)) as V. now rewrite Hx in V.
  - rewrite ltb_spec in Hcmp.
    change (Prim2SF 180) with (S754_finite false m_180 (-45)) in Hcmp.
    apply (pos_le_leb _ 180 m_180 (-45)); [reflexivity|].
    now apply not_above_180.
Qed.

Local Open Scope Z_scope.

(** *** Finite arguments *)

Lemma is_finite_finiteSF (x : float) : is_finite x = true -> finiteSF (Prim2SF x).
Proof.
  unfold is_finite, is_nan, is_infinity.
  rewrite !eqb_spec, abs_spec.
  change (Prim2SF infinity) with (S754_infinity false).
  destruct (Prim2SF x) as [s|[|]| |s m e]; cbn; intros; try discriminate; auto.
Qed.

Lemma mag_le_finiteSF (x : spec_float) (mB : positive) (eB : Z) :
  mag_le x mB eB -> finiteSF x.
Proof. destruct x; cbn; tauto. Qed.

Lemma SFcompare_refl (x : spec_float) :
  x <> S754_nan -> SFcompare x x = Some Eq.
Proof.
  destruct x as [s|s| |s m e]; intros H; try congruence; cbn [SFcompare].
  - reflexivity.
  - destruct s; reflexivity.
  - rewrite Z.compare_refl, Pos.compare_cont_refl. destruct s; reflexivity.
Qed.

Lemma not_nan_is_nan (x : float) : Prim2SF x <> S754_nan -> is_nan x = false.
Proof.
  intros H. unfold is_nan. rewrite eqb_spec. unfold SFeqb.
  now rewrite SFcompare_refl.
Qed.

Lemma has_sign_not_nan (s : bool) (x : spec_float) :
  has_sign s x -> x <> S754_nan.
Proof. destruct x; cbn; congruence. Qed.

Lemma SFsub_finite (x y : spec_float) :
  finiteSF x -> finiteSF y -> SFsub prec emax x y <> S754_nan.
Proof.
  destruct x as [sx|sx| |sx mx ex], y as [sy|sy| |sy my ey]; cbn [finiteSF];
    try tauto; intros _ _; try solve [case_signs; discriminate].
  cbn [SFsub].
  destruct (_ - _) as [|z|z]; cbn [binary_normalize]; [discriminate| |];
    eapply has_sign_not_nan, binary_round_sign.
Qed.

Lemma sub_finite_not_nan (x y : float) :
  is_finite x = true -> is_finite y = true -> is_nan (x - y) = false.
Proof.
  intros Hx Hy. apply not_nan_is_nan. rewrite sub_spec.
  apply SFsub_finite; now apply is_finite_finiteSF.
Qed.

Lemma sub_self (x : float) : finiteSF (Prim2SF x) -> (x - x)%float = 0%float.
Proof.
  intros H. apply Prim2SF_inj. rewrite sub_spec.
  change (Prim2SF 0) with (S754_zero false).
  destruct (Prim2SF x) as [s|s| |s m e]; cbn [finiteSF] in H; try tauto.
  - destruct s; reflexivity.
  - unfold SF64sub. cbn [SFsub]. now rewrite Z.sub_diag.
Qed.

Lemma sqrt_not_negative (x : float) : (PrimFloat.sqrt x <? 0)%float = false.
Proof.
  apply NonNeg_ltb_zero. unfold NonNeg. rewrite sqrt_spec.
  apply SFsqrt_nonneg.
Qed.

Lemma angle_of_self (v : float) :
  (- Math_PI <=? v)%float = true -> (v <=? Math_PI)%float = true ->
  angle_of v v = 0%float.
Proof.
  intros H1 H2. unfold angle_of.
  rewrite (sub_self v);
    [reflexivity | exact (mag_le_finiteSF _ _ _ (pi_range_Mag v H1 H2))].
Qed.

End Binary64Facts.

Set Implicit Arguments.
(** ** Arrays *)

Lemma Array_slice_neg {A : Type} (p : positive) (l : list A) :
  Array_slice (Z.neg p) l = lastn (Pos.to_nat p) l.
Proof.
  unfold Array_slice, lastn.
  replace (Z.neg p <? 0)%Z with true by (symmetry; apply Z.ltb_lt; lia).
  f_equal. lia.
Qed.

Lemma Array_slice_one {A : Type} (l : list A) : Array_slice 1 l = tl l.
Proof.
  unfold Array_slice. destruct l as [|a l]; [reflexivity|].
  cbn [List.length tl].
  replace (Z.to_nat (if (1 <? 0)%Z then _ else Z.min 1 (Z.of_nat (S (List.length l)))))
    with 1%nat; [reflexivity|].
  change (1 <? 0)%Z with false. cbv iota. lia.
Qed.

Lemma lastn_length {A : Type} (n : nat) (l : list A) :
  List.length (lastn n l) = Nat.min n (List.length l).
Proof. unfold lastn. rewrite length_skipn. lia. Qed.

Lemma lastn_all {A : Type} (n : nat) (l : list A) :
  (List.length l <= n)%nat -> lastn n l = l.
Proof.
  intros H. unfold lastn.
  replace (List.length l - n)%nat with 0%nat by lia. reflexivity.
Qed.

(** Keeping the last [n] of a buffer and appending one sample keeps the
    last [n + 1] of everything appended so far. *)
Lemma lastn_snoc {A : Type} (n : nat) (l : list A) (a : A) :
  lastn n l ++ [a] = lastn (S n) (l ++ [a]).
Proof.
  unfold lastn. rewrite length_app. cbn [List.length].
  replace (List.length l + 1 - S n)%nat with (List.length l - n)%nat by lia.
  rewrite skipn_app.
  replace (List.length l - n - List.length l)%nat with 0%nat by lia.
  reflexivity.
Qed.

Lemma lastn_lastn {A : Type} (n m : nat) (l : list A) :
  (n <= m)%nat -> lastn n (lastn m l) = lastn n l.
Proof.
  intros H. unfold lastn. rewrite length_skipn, skipn_skipn.
  f_equal. lia.
Qed.

(** A buffer of capacity [S n] fed through [fun h a => lastn n h ++ [a]]
    holds the last [S n] samples fed to it. *)
Lemma fold_push_lastn {A B : Type} (n : nat) (f : B -> A) (samples : list B)
    (h0 : list A) :
  fold_left (fun h b => lastn n h ++ [f b]) samples (lastn (S n) h0) =
  lastn (S n) (h0 ++ map f samples).
Proof.
  revert h0. induction samples as [|b samples IH]; intros h0; cbn [fold_left map].
  - now rewrite app_nil_r.
  - rewrite lastn_lastn by lia. rewrite lastn_snoc, IH.
    now rewrite <- app_assoc.
Qed.

Lemma fold_left_pointwise {A B : Type} (f g : A -> B -> A) (l : list B) (a : A) :
  (forall x y, f x y = g x y) -> fold_left f l a = fold_left g l a.
Proof.
  intros E. revert a. induction l as [|b l IH]; intros a; cbn [fold_left].
  - reflexivity.
  - now rewrite E, IH.
Qed.

(** ** History buffers *)

Lemma pushPosition_eq (n : Keypoint) (prev : list Position) :
  pushPosition n prev = lastn 9 prev ++ [samplePosition n].
Proof. unfold pushPosition. now rewrite Array_slice_neg. Qed.

Lemma pushWrists_eq (lw rw : Keypoint) (prev : list WristPair) :
  pushWrists lw rw prev = lastn 19 prev ++ [sampleWrists (lw, rw)].
Proof. unfold pushWrists. now rewrite Array_slice_neg. Qed.

Lemma pushPosition_length (n : Keypoint) (prev : list Position) :
  (List.length (pushPosition n prev) <= 10)%nat.
Proof.
  rewrite pushPosition_eq, length_app, lastn_length. cbn [List.length]. lia.
Qed.

Lemma pushWrists_length (lw rw : Keypoint) (prev : list WristPair) :
  (List.length (pushWrists lw rw prev) <= 20)%nat.
Proof.
  rewrite pushWrists_eq, length_app, lastn_length. cbn [List.length]. lia.
Qed.

Section DriverInvariant.

Context {M : MathLib}.

Lemma recordPose_within_capacity (keypoints : list Keypoint) (st : AppState) :
  within_capacity st -> within_capacity (recordPose keypoints st).
Proof.
  intros [Hp Hw]. unfold within_capacity, recordPose.
  cbn [previousPositions wristPositions]. split.
  - destruct (findKeypoint keypoints "nose");
      [apply pushPosition_length | exact Hp].
  - destruct (findKeypoint keypoints "left_wrist");
      [destruct (findKeypoint keypoints "right_wrist") |];
      [apply pushWrists_length | exact Hw | exact Hw].
Qed.

Lemma detectPose_within_capacity (webcam : WebcamRef) (estimate : Estimate)
    (st : AppState) :
  within_capacity st -> within_capacity (detectPose webcam estimate st).
Proof.
  intros H. unfold detectPose.
  destruct (negb (detector st)); [exact H|].
  destruct webcam as [[video|]|]; try exact H.
  destruct (negb (isWebcamReady st) || negb (hasVideoStream st)); [exact H|].
  destruct (negb (readyState video =? 4)%Z || (videoWidth video =? 0)%Z
            || (videoHeight video =? 0)%Z); [exact H|].
  destruct estimate as [pose|]; [|exact H].
  destruct (poseAccepted pose); [|exact H].
  now apply recordPose_within_capacity.
Qed.

Lemma step_within_capacity (st : AppState) (ev : Event) :
  within_capacity st -> within_capacity (step st ev).
Proof.
  intros H. destruct ev as [| |webcam|webcam estimate]; cbn [step].
  - exact H.
  - exact H.
  - unfold checkVideoStream. destruct webcam as [[video|]|]; try exact H.
    destruct ((readyState video =? 4)%Z && (0 <? videoWidth video)%Z
              && (0 <? videoHeight video)%Z); exact H.
  - now apply detectPose_within_capacity.
Qed.

Lemma fold_step_within_capacity (events : list Event) (st : AppState) :
  within_capacity st -> within_capacity (fold_left step events st).
Proof.
  revert st. induction events as [|ev events IH]; intros st H; cbn [fold_left].
  - exact H.
  - apply IH. now apply step_within_capacity.
Qed.

End DriverInvariant.

(** C8. Whatever the sequence of events, the position history never holds
    more than 10 samples and the wrist history never more than 20; and a
    buffer fed any sequence of samples through the updaters of
    [detectPose] holds exactly the last 10 (respectively 20) of them, in
    the order they were appended. *)
Theorem history_buffers_bounded_fifo :
  (forall (M : MathLib) (events : list Event),
      (List.length (previousPositions (run events)) <= 10)%nat /\
      (List.length (wristPositions (run events)) <= 20)%nat) /\
  (forall noses : list Keypoint,
      let history := fold_left (fun h n => pushPosition n h) noses [] in
      history = lastn 10 (map samplePosition noses) /\
      List.length history = Nat.min 10 (List.length noses)) /\
  (forall wrists : list (Keypoint * Keypoint),
      let history :=
        fold_left (fun h w => pushWrists (fst w) (snd w) h) wrists [] in
      history = lastn 20 (map sampleWrists wrists) /\
      List.length history = Nat.min 20 (List.length wrists)).
Proof.
  split; [|split].
  - intros M events. apply (fold_step_within_capacity events).
    split; cbn; lia.
  - intros noses history.
    assert (E : history = lastn 10 (map samplePosition noses)).
    { subst history.
      rewrite (fold_left_pointwise _ (fun h n => lastn 9 h ++ [samplePosition n]))
        by (intros; apply pushPosition_eq).
      exact (fold_push_lastn 9 samplePosition noses []). }
    split; [exact E|]. now rewrite E, lastn_length, length_map.
  - intros wrists history.
    assert (E : history = lastn 20 (map sampleWrists wrists)).
    { subst history.
      rewrite (fold_left_pointwise _ (fun h w => lastn 19 h ++ [sampleWrists w]))
        by (intros h [lw rw]; apply pushWrists_eq).
      exact (fold_push_lastn 19 sampleWrists wrists []). }
    split; [exact E|]. now rewrite E, lastn_length, length_map.
Qed.

(** ** Motion detectors *)

Lemma consecutive_length {A B : Type} (f : A -> A -> B) (l : list A) :
  List.length (consecutive f l) = (List.length l - 1)%nat.
Proof.
  induction l as [|a [|b t] IH]; try reflexivity.
  change (consecutive f (a :: b :: t)) with (f a b :: consecutive f (b :: t)).
  cbn [List.length] in *. lia.
Qed.

Lemma lastn_length_ge {A : Type} (n : nat) (l : list A) :
  (List.length l <? n)%nat = false -> List.length (lastn n l) = n.
Proof. intros H. apply Nat.ltb_ge in H. rewrite lastn_length. lia. Qed.

Ltac list_of_length l :=
  repeat (let a := fresh "s" in destruct l as [|a l]; [discriminate|]);
  destruct l; [|discriminate].

Section DetectorProperties.

Context {M : MathLib}.

Lemma average_wristChanges (side : WristPair -> Position)
    (coord : Position -> float) (samples : list WristPair) :
  List.length samples = 10%nat ->
  average (wristChanges side coord samples) =
  sum (absDeltas side coord samples) / 9.
Proof.
  intros H. list_of_length samples. reflexivity.
Qed.

(** C7. [isMoving] is false below 5 stored samples; from 5 samples on it
    is true exactly when the average of the 4 Euclidean displacements
    between consecutive samples among the last 5 exceeds 15. *)
Theorem isMoving_average_displacement (history : list Position)
    (currentPos : Position) :
  isMoving history currentPos = isMoving_spec history /\
  List.length (consecutive displacement (lastn 5 history)) =
    (Nat.min 5 (List.length history) - 1)%nat.
Proof.
  split; [|now rewrite consecutive_length, lastn_length].
  unfold isMoving, isMoving_spec.
  destruct (List.length history <? 5)%nat eqn:Hlen; [reflexivity|].
  rewrite (Array_slice_neg 5 history).
  change (Pos.to_nat 5) with 5%nat.
  pose proof (lastn_length_ge 5 history Hlen) as H5.
  destruct (lastn 5 history) as [|s0 recent]; [discriminate|].
  list_of_length recent. reflexivity.
Qed.

(** C6. [isWaving] is false below 10 stored samples; from 10 samples on
    it looks at the last 10, a side waves exactly when its average
    absolute horizontal change over the 9 steps exceeds 20 and exceeds
    twice its average absolute vertical change, and the result is the
    disjunction of the two sides. *)
Theorem isWaving_horizontal_dominance (history : list WristPair) :
  isWaving history = isWaving_spec history /\
  List.length (absDeltas wp_left pos_x (lastn 10 history)) =
    (Nat.min 10 (List.length history) - 1)%nat.
Proof.
  split; [|unfold absDeltas; now rewrite consecutive_length, lastn_length].
  unfold isWaving, isWaving_spec.
  destruct (List.length history <? 10)%nat eqn:Hlen; [reflexivity|].
  rewrite (Array_slice_neg 10 history).
  change (Pos.to_nat 10) with 10%nat.
  pose proof (lastn_length_ge 10 history Hlen) as H10.
  cbv zeta. unfold sideWaving.
  now rewrite !average_wristChanges by exact H10.
Qed.

(** C10. The result of [isMoving] does not depend on the position passed
    as [currentPos]: only the stored history is read. *)
Theorem isMoving_ignores_currentPos (history : list Position)
    (p q : Position) :
  isMoving history p = isMoving history q.
Proof. reflexivity. Qed.

End DetectorProperties.

(** ** The rule chain *)

Ltac destruct_lookups :=
  repeat match goal with
         | |- context [match findKeypoint ?kps ?n with _ => _ end] =>
             destruct (findKeypoint kps n)
         end.

Lemma lookupSkeleton_missing (keypoints : list Keypoint) (name : string) :
  In name requiredKeypoints -> findKeypoint keypoints name = None ->
  lookupSkeleton keypoints = None.
Proof.
  intros Hin Hnone. unfold requiredKeypoints in Hin. cbn [In] in Hin.
  unfold lookupSkeleton.
  repeat (destruct Hin as [<-|Hin];
          [rewrite Hnone; destruct_lookups; reflexivity|]).
  destruct Hin.
Qed.

Lemma lookupSkeleton_None (keypoints : list Keypoint) :
  lookupSkeleton keypoints = None ->
  exists name, In name requiredKeypoints /\ findKeypoint keypoints name = None.
Proof.
  unfold lookupSkeleton, requiredKeypoints.
  repeat match goal with
         | |- context [match findKeypoint ?kps ?n with _ => _ end] =>
             let E := fresh "E" in
             destruct (findKeypoint kps n) eqn:E;
             [| intros _; exists n; split; [cbn [In]; tauto | exact E] ]
         end.
  discriminate.
Qed.

Lemma lookupSkeleton_nonempty (keypoints : list Keypoint) (k : Skeleton) :
  lookupSkeleton keypoints = Some k -> (List.length keypoints =? 0)%nat = false.
Proof. destruct keypoints; [discriminate | reflexivity]. Qed.

Lemma findKeypoint_rescore (f : Keypoint -> option float)
    (keypoints : list Keypoint) (name : string) :
  findKeypoint (map (rescore f) keypoints) name =
  option_map (rescore f) (findKeypoint keypoints name).
Proof.
  unfold findKeypoint, Array_find.
  induction keypoints as [|kp keypoints IH]; [reflexivity|].
  cbn [map find]. change (name_is name (rescore f kp)) with (name_is name kp).
  destruct (name_is name kp); [reflexivity | exact IH].
Qed.

Lemma lookupSkeleton_rescore (f : Keypoint -> option float)
    (keypoints : list Keypoint) :
  lookupSkeleton (map (rescore f) keypoints) =
  option_map (rescoreSkeleton f) (lookupSkeleton keypoints).
Proof.
  unfold lookupSkeleton. rewrite !findKeypoint_rescore.
  destruct_lookups; reflexivity.
Qed.

Section ClassifierProperties.

Context {M : MathLib}.

Variables (previousPositions : list Position)
          (wristPositions : list WristPair).

Lemma determineActivity_found (keypoints : list Keypoint) (k : Skeleton) :
  lookupSkeleton keypoints = Some k ->
  determineActivity previousPositions wristPositions keypoints =
  classifySkeleton previousPositions wristPositions k.
Proof.
  intros H. unfold determineActivity.
  now rewrite (lookupSkeleton_nonempty _ H), H.
Qed.

Lemma determineActivity_missing (keypoints : list Keypoint) :
  lookupSkeleton keypoints = None ->
  determineActivity previousPositions wristPositions keypoints = Stable.
Proof.
  intros H. unfold determineActivity. rewrite H.
  now destruct (List.length keypoints =? 0)%nat.
Qed.


Lemma classifySkeleton_rescore (f : Keypoint -> option float) (k : Skeleton) :
  classifySkeleton previousPositions wristPositions (rescoreSkeleton f k) =
  classifySkeleton previousPositions wristPositions k.
Proof. reflexivity. Qed.

(** The confidence score of a keypoint is never read. *)
Lemma determineActivity_ignores_scores (f : Keypoint -> option float)
    (keypoints : list Keypoint) :
  determineActivity previousPositions wristPositions (map (rescore f) keypoints) =
  determineActivity previousPositions wristPositions keypoints.
Proof.
  unfold determineActivity. rewrite length_map, lookupSkeleton_rescore.
  destruct (lookupSkeleton keypoints) as [k|]; cbn [option_map];
    [now rewrite classifySkeleton_rescore | reflexivity].
Qed.

End ClassifierProperties.


Section ClassifierClaims.

Context {M : MathLib}.

(** C3 (amended). A frame in which one of the thirteen required
    keypoints is not found is classified [Stable], whatever the [Math]
    library and the histories, so without any use of the geometric
    features; and the confidence scores of the keypoints are not
    consulted: whatever scores the keypoints of a frame are given, be
    the frame complete or not, its label is the same. *)
Theorem missing_keypoint_is_stable (previousPositions : list Position)
    (wristPositions : list WristPair) (keypoints : list Keypoint)
    (name : string) :
  In name requiredKeypoints ->
  findKeypoint keypoints name = None ->
  determineActivity previousPositions wristPositions keypoints = Stable /\
  forall (f : Keypoint -> option float) (frame : list Keypoint),
    determineActivity previousPositions wristPositions
      (map (rescore f) frame) =
    determineActivity previousPositions wristPositions frame.
Proof.
  intros Hin Hnone. split.
  - apply determineActivity_missing.
    exact (lookupSkeleton_missing keypoints Hin Hnone).
  - intros f frame. apply determineActivity_ignores_scores.
Qed.


(** C2 (amended). For a frame in which a required keypoint is missing,
    the classification cycle sets the activity to [Stable]; the position
    history receives the nose sample when the frame has a nose and is
    unchanged otherwise, and the wrist history receives the wrist pair
    when the frame has both wrists and is unchanged otherwise. *)
Theorem missing_keypoint_cycle (keypoints : list Keypoint) (name : string)
    (st : AppState) :
  In name requiredKeypoints ->
  findKeypoint keypoints name = None ->
  let st' := recordPose keypoints st in
  currentActivity st' = Stable /\
  previousPositions st' =
    match findKeypoint keypoints "nose" with
    | Some n => lastn 9 (previousPositions st) ++ [samplePosition n]
    | None => previousPositions st
    end /\
  wristPositions st' =
    match findKeypoint keypoints "left_wrist",
          findKeypoint keypoints "right_wrist" with
    | Some lw, Some rw =>
        lastn 19 (wristPositions st) ++ [sampleWrists (lw, rw)]
    | _, _ => wristPositions st
    end.
Proof.
  intros Hin Hnone st'. subst st'. unfold recordPose.
  cbn [currentActivity previousPositions wristPositions].
  split; [|split].
  - apply determineActivity_missing.
    exact (lookupSkeleton_missing keypoints Hin Hnone).
  - destruct (findKeypoint keypoints "nose");
      [apply pushPosition_eq | reflexivity].
  - destruct (findKeypoint keypoints "left_wrist");
      [destruct (findKeypoint keypoints "right_wrist") |];
      [apply pushWrists_eq | reflexivity | reflexivity].
Qed.

End ClassifierClaims.

(** C3, as stated, fails: every keypoint of this frame has confidence 0,
    below any positive threshold, and the frame is classified
    [RaisingHands]. *)
Lemma low_confidence_frame_is_classified :
  (forall name, In name requiredKeypoints ->
     exists kp, findKeypoint (Samples.armsUp 0) name = Some kp /\
                kp_score kp = Some 0) /\
  @determineActivity Reference.math [] [] (Samples.armsUp 0) = RaisingHands.
Proof.
  split; [|vm_compute; reflexivity].
  intros name Hin. unfold requiredKeypoints in Hin. cbn [In] in Hin.
  repeat (destruct Hin as [<-|Hin]; [eexists; split; reflexivity|]).
  destruct Hin.
Qed.

Lemma missing_keypoint_is_stable_witness :
  @determineActivity Reference.math [] [] Samples.noRightAnkle = Stable /\
  forall (f : Keypoint -> option float) (frame : list Keypoint),
    @determineActivity Reference.math [] [] (map (rescore f) frame) =
    @determineActivity Reference.math [] [] frame.
Proof.
  apply (@missing_keypoint_is_stable Reference.math [] [] Samples.noRightAnkle
           "right_ankle").
  - unfold requiredKeypoints. cbn [In]. tauto.
  - reflexivity.
Defined.



(** C2, as stated, fails: a frame without [right_ankle] is classified
    [Stable], and yet both histories, empty before the tick, hold one
    sample after it. *)
Lemma missing_ankle_frame_is_recorded :
  let before := @run Reference.math Samples.warmUp in
  let after :=
    @step Reference.math before
      (PoseTick Samples.webcam
         (Poses [mkPose Samples.noRightAnkle (Some 0.75)])) in
  findKeypoint Samples.noRightAnkle "right_ankle" = None /\
  currentActivity after = Stable /\
  previousPositions before = [] /\
  previousPositions after = [mkPosition 100 40] /\
  wristPositions before = [] /\
  wristPositions after =
    [mkWristPair (mkPosition 75 195) (mkPosition 125 195)].
Proof. vm_compute. repeat split. Qed.

Lemma missing_keypoint_cycle_witness :
  let st' := @recordPose Reference.math Samples.noRightAnkle initialState in
  currentActivity st' = Stable /\
  previousPositions st' = [mkPosition 100 40] /\
  wristPositions st' = [mkWristPair (mkPosition 75 195) (mkPosition 125 195)].
Proof.
  apply (@missing_keypoint_cycle Reference.math Samples.noRightAnkle
           "right_ankle" initialState).
  - unfold requiredKeypoints. cbn [In]. tauto.
  - reflexivity.
Defined.

(** C1, at a frame the claim covers.  The thirteen keypoints are present,
    the arms are not raised, nothing waves, the knee angles are below 100
    degrees, the hip angles above 45 degrees, the shoulders 5 apart in
    height and the nose above the midpoint of the shoulders (its [y] is
    smaller); the classifier answers [Sitting], not [Squatting]. *)
Theorem squat_with_head_up_is_sitting :
  let k := Samples.skeletonOf Samples.squatHeadUp in
  lookupSkeleton Samples.squatHeadUp = Some k /\
  armsRaised k = false /\
  @isWaving [] = false /\
  (@leftKneeAngle Reference.math k <? 100) = true /\
  (@rightKneeAngle Reference.math k <? 100) = true /\
  gtb (@leftHipAngle Reference.math k) 45 = true /\
  gtb (@rightHipAngle Reference.math k) 45 = true /\
  abs (kp_y (leftShoulder k) - kp_y (rightShoulder k)) = 5 /\
  (kp_y (nose k) <? (kp_y (leftShoulder k) + kp_y (rightShoulder k)) / 2) = true /\
  @determineActivity Reference.math [] [] Samples.squatHeadUp = Sitting.
Proof. vm_compute. repeat split. Qed.

(** ** The reference [Math] library and the standard's guarantees *)

Lemma clamp_pi_within (v : float) : within_pi (Reference.clamp_pi v) = true.
Proof.
  unfold Reference.clamp_pi, within_pi.
  destruct (v <=? Math_PI) eqn:Hhi; [|reflexivity].
  destruct (- Math_PI <=? v) eqn:Hlo; [|reflexivity].
  now rewrite Hhi, Hlo.
Qed.

Lemma Reference_atan2_within_pi : atan2_within_pi Reference.math.
Proof.
  intros y x Hy Hx. cbn [Math_atan2 Reference.math]. unfold Reference.atan2.
  rewrite Hy, Hx. cbn [orb]. apply clamp_pi_within.
Qed.

Lemma Reference_sqrt_not_negative : sqrt_not_negative Reference.math.
Proof. intros x. apply Binary64Facts.sqrt_not_negative. Qed.

(** ** Angles *)

Section AngleProperties.

Context {M : MathLib}.

Lemma calculateAngle_angle_of (p1 p2 p3 : Keypoint) :
  calculateAngle p1 p2 p3 =
  Binary64.angle_of
    (Math_atan2 (kp_y p3 - kp_y p2) (kp_x p3 - kp_x p2))
    (Math_atan2 (kp_y p1 - kp_y p2) (kp_x p1 - kp_x p2)).
Proof. reflexivity. Qed.

Lemma atan2_of_finite_within_pi (y y' x x' : float) :
  atan2_within_pi M ->
  is_finite y = true -> is_finite y' = true ->
  is_finite x = true -> is_finite x' = true ->
  (- Math_PI <=? Math_atan2 (y - y') (x - x')) = true /\
  (Math_atan2 (y - y') (x - x') <=? Math_PI) = true.
Proof.
  intros Hlaw Hy Hy' Hx Hx'. apply andb_true_iff.
  apply Hlaw; now apply Binary64Facts.sub_finite_not_nan.
Qed.

(** C9. With a [Math.atan2] that keeps to the range the standard gives
    it, the angle computed for three points with finite coordinates lies
    between 0 and 180, both included; and the angle of a point with
    itself is 0 (so not NaN). *)
Theorem calculateAngle_range (p1 p2 p3 : Keypoint) :
  atan2_within_pi M ->
  finite_point p1 = true -> finite_point p2 = true -> finite_point p3 = true ->
  (0 <=? calculateAngle p1 p2 p3) && (calculateAngle p1 p2 p3 <=? 180) = true /\
  calculateAngle p2 p2 p2 = 0.
Proof.
  intros Hlaw F1 F2 F3. unfold finite_point in F1, F2, F3.
  apply andb_true_iff in F1, F2, F3.
  destruct F1 as [F1x F1y], F2 as [F2x F2y], F3 as [F3x F3y].
  split.
  - rewrite calculateAngle_angle_of.
    destruct (@atan2_of_finite_within_pi _ _ _ _ Hlaw F3y F2y F3x F2x) as [Ha1 Ha2].
    destruct (@atan2_of_finite_within_pi _ _ _ _ Hlaw F1y F2y F1x F2x) as [Hb1 Hb2].
    apply andb_true_iff.
    exact (Binary64Facts.angle_of_range _ _ Ha1 Ha2 Hb1 Hb2).
  - rewrite calculateAngle_angle_of.
    destruct (@atan2_of_finite_within_pi _ _ _ _ Hlaw F2y F2y F2x F2x) as [Ha1 Ha2].
    exact (Binary64Facts.angle_of_self _ Ha1 Ha2).
Qed.

End AngleProperties.

Lemma calculateAngle_range_witness :
  let hip := Samples.kp 0.75 "left_hip" 85 200 in
  let knee := Samples.kp 0.75 "left_knee" 167 150 in
  let ankle := Samples.kp 0.75 "left_ankle" 201 244 in
  (0 <=? @calculateAngle Reference.math hip knee ankle) &&
  (@calculateAngle Reference.math hip knee ankle <=? 180) = true /\
  @calculateAngle Reference.math knee knee knee = 0.
Proof.
  intros hip knee ankle.
  apply (@calculateAngle_range Reference.math hip knee ankle);
    [exact Reference_atan2_within_pi | reflexivity | reflexivity | reflexivity].
Defined.

(** ** Degenerate geometry *)

Section DegenerateGeometry.

Context {M : MathLib}.

Lemma calculateDistance_NonNeg (p q : Keypoint) :
  sqrt_not_negative M -> Binary64.NonNeg (calculateDistance p q).
Proof. intros Hlaw. apply Binary64Facts.ltb_zero_NonNeg, Hlaw. Qed.

Lemma averaged_NonNeg (p q p' q' : Keypoint) :
  sqrt_not_negative M ->
  Binary64.NonNeg ((calculateDistance p q + calculateDistance p' q') / 2).
Proof.
  intros Hlaw.
  apply Binary64Facts.half_NonNeg, Binary64Facts.add_NonNeg;
    now apply calculateDistance_NonNeg.
Qed.

(** When the three averaged distances add up to zero, the first two are
    zeros themselves and both ratios are the quotient of a zero by a
    zero. *)
Lemma zero_height_ratios (k : Skeleton) :
  sqrt_not_negative M ->
  (totalHeight k =? 0) = true ->
  shoulderHipRatio k = nan /\ hipKneeRatio k = nan.
Proof.
  intros Hlaw Hzero. apply Binary64Facts.eqb_zero_IsZero in Hzero.
  assert (Hs : Binary64.NonNeg (shoulderHipDist k)) by now apply averaged_NonNeg.
  assert (Hh : Binary64.NonNeg (hipKneeDist k)) by now apply averaged_NonNeg.
  assert (Hk : Binary64.NonNeg (kneeAnkleDist k)) by now apply averaged_NonNeg.
  pose proof Hzero as Hsum. unfold totalHeight in Hsum.
  apply Binary64Facts.add_IsZero_inv in Hsum;
    [|now apply Binary64Facts.add_NonNeg|exact Hk].
  destruct Hsum as [Hsh _].
  apply Binary64Facts.add_IsZero_inv in Hsh; [|exact Hs|exact Hh].
  destruct Hsh as [Hs0 Hh0].
  split; now apply Binary64Facts.div_IsZero.
Qed.

(** C4 (amended). When [totalHeight] is zero the two ratios are not
    replaced by zero: each is the quotient 0 / 0, that is NaN.  No error
    arises, and the NaN cannot select a label: every comparison with it is
    false, so neither the Sitting nor the Standing rule holds and
    [determineActivity] returns one of the other labels. *)
Theorem zero_height_ratios_are_nan (previousPositions : list Position)
    (wristPositions : list WristPair) (keypoints : list Keypoint)
    (k : Skeleton) :
  sqrt_not_negative M ->
  lookupSkeleton keypoints = Some k ->
  (totalHeight k =? 0) = true ->
  is_nan (shoulderHipRatio k) = true /\
  is_nan (hipKneeRatio k) = true /\
  isSitting k = false /\
  isStanding k = false /\
  determineActivity previousPositions wristPositions keypoints <> Sitting /\
  determineActivity previousPositions wristPositions keypoints <> Standing.
Proof.
  intros Hlaw Hk Hzero.
  destruct (@zero_height_ratios k Hlaw Hzero) as [Hs Hh].
  assert (Hsit : isSitting k = false).
  { unfold isSitting. rewrite Hh.
    change (gtb nan 0x1.3333333333333p-2) with false.
    apply andb_false_r. }
  assert (Hstand : isStanding k = false).
  { unfold isStanding. rewrite Hh.
    change (gtb nan 0x1.3333333333333p-2) with false.
    apply andb_false_r. }
  rewrite Hs, Hh. repeat split; try reflexivity; try assumption.
  - rewrite (determineActivity_found _ _ _ Hk). unfold classifySkeleton.
    rewrite Hsit, Hstand.
    destruct (armsRaised k), (isWaving wristPositions), (isSquatting k),
      (isMoving previousPositions
         (mkPosition (kp_x (nose k)) (kp_y (nose k)))); discriminate.
  - rewrite (determineActivity_found _ _ _ Hk). unfold classifySkeleton.
    rewrite Hsit, Hstand.
    destruct (armsRaised k), (isWaving wristPositions), (isSquatting k),
      (isMoving previousPositions
         (mkPosition (kp_x (nose k)) (kp_y (nose k)))); discriminate.
Qed.

(** X7. With the head held up (the nose above the midpoint of the shoulders,
    so with a smaller [y]) the squat rule cannot hold, whatever the
    angles: the label is never [Squatting]. *)
Lemma head_up_is_never_squatting (previousPositions : list Position)
    (wristPositions : list WristPair) (keypoints : list Keypoint)
    (k : Skeleton) :
  lookupSkeleton keypoints = Some k ->
  (kp_y (nose k) <? (kp_y (leftShoulder k) + kp_y (rightShoulder k)) / 2) = true ->
  determineActivity previousPositions wristPositions keypoints <> Squatting.
Proof.
  intros Hk Hup. rewrite (determineActivity_found _ _ _ Hk).
  assert (Hsq : isSquatting k = false).
  { unfold isSquatting, gtb at 3.
    rewrite (Binary64Facts.ltb_asym _ _ Hup). apply andb_false_r. }
  unfold classifySkeleton. rewrite Hsq.
  destruct (armsRaised k), (isWaving wristPositions), (isSitting k),
    (isMoving previousPositions
         (mkPosition (kp_x (nose k)) (kp_y (nose k)))), (isStanding k); discriminate.
Qed.

End DegenerateGeometry.

(** C4, as stated, fails: with every keypoint at the same point
    [totalHeight] is zero and both ratios are NaN, not zero. *)
Lemma collapsed_frame_ratios_are_nan :
  let k := Samples.skeletonOf Samples.collapsed in
  lookupSkeleton Samples.collapsed = Some k /\
  @totalHeight Reference.math k = 0 /\
  is_nan (@shoulderHipRatio Reference.math k) = true /\
  is_nan (@hipKneeRatio Reference.math k) = true /\
  (@shoulderHipRatio Reference.math k =? 0) = false /\
  (@hipKneeRatio Reference.math k =? 0) = false.
Proof. vm_compute. repeat split. Qed.

Lemma zero_height_ratios_are_nan_witness :
  let k := Samples.skeletonOf Samples.collapsed in
  is_nan (@shoulderHipRatio Reference.math k) = true /\
  is_nan (@hipKneeRatio Reference.math k) = true /\
  @isSitting Reference.math k = false /\
  @isStanding Reference.math k = false /\
  @determineActivity Reference.math [] [] Samples.collapsed <> Sitting /\
  @determineActivity Reference.math [] [] Samples.collapsed <> Standing.
Proof.
  intros k.
  apply (@zero_height_ratios_are_nan Reference.math [] [] Samples.collapsed k);
    [exact Reference_sqrt_not_negative | reflexivity | reflexivity].
Defined.

(** * Further properties *)

(** ** Binary64: magnitudes, signs and order *)

Unset Implicit Arguments.

Module Binary64Symmetry.

Import Binary64 Binary64Facts.

Local Open Scope Z_scope.

(** *** Magnitudes do not depend on signs *)

Lemma binary_round_aux_abs (s s' : bool) (m e : Z) (l : location) :
  SFabs (binary_round_aux prec emax s m e l) =
  SFabs (binary_round_aux prec emax s' m e l).
Proof.
  unfold binary_round_aux.
  destruct (shr_fexp prec emax m e l) as [mrs e1].
  destruct (shr_fexp prec emax _ e1 loc_Exact) as [mrs' e2].
  destruct (shr_m mrs'); [reflexivity| |reflexivity].
  destruct (e2 <=? emax - prec); reflexivity.
Qed.

Lemma binary_round_abs (s s' : bool) (m : positive) (e : Z) :
  SFabs (binary_round prec emax s m e) = SFabs (binary_round prec emax s' m e).
Proof.
  unfold binary_round. destruct (shl_align m e _) as [mz ez].
  apply binary_round_aux_abs.
Qed.

Lemma binary_normalize_opp_abs (z e : Z) :
  SFabs (binary_normalize prec emax (- z) e false) =
  SFabs (binary_normalize prec emax z e false).
Proof.
  destruct z as [|p|p]; cbn [Z.opp binary_normalize]; try reflexivity;
    apply binary_round_abs.
Qed.

Lemma SFsub_swap_abs (x y : spec_float) :
  SFabs (SFsub prec emax x y) = SFabs (SFsub prec emax y x).
Proof.
  destruct x as [sx|sx| |sx mx ex], y as [sy|sy| |sy my ey];
    try solve [case_signs; reflexivity].
  cbn [SFsub]. rewrite (Z.min_comm ey ex).
  set (a := cond_Zopp sx _). set (b := cond_Zopp sy _).
  replace (b - a) with (- (a - b)) by lia.
  symmetry. apply binary_normalize_opp_abs.
Qed.

Lemma SFabs_same_shape (x x' : spec_float) :
  SFabs x = SFabs x' ->
  match x, x' with
  | S754_zero _, S754_zero _ | S754_infinity _, S754_infinity _
  | S754_nan, S754_nan => True
  | S754_finite _ m e, S754_finite _ m' e' => m = m' /\ e = e'
  | _, _ => False
  end.
Proof. destruct x, x'; cbn; intros H; try discriminate; try exact I.
  now inversion H. Qed.

Lemma SFmul_abs_l (x x' c : spec_float) :
  SFabs x = SFabs x' ->
  SFabs (SFmul prec emax x c) = SFabs (SFmul prec emax x' c).
Proof.
  intros H. apply SFabs_same_shape in H.
  destruct x as [sx|sx| |sx mx ex], x' as [sx'|sx'| |sx' mx' ex']; try tauto;
    destruct c as [sc|sc| |sc mc ec]; try reflexivity.
  destruct H as [-> ->]. cbn [SFmul]. apply binary_round_aux_abs.
Qed.

Lemma SFdiv_abs_l (x x' c : spec_float) :
  SFabs x = SFabs x' ->
  SFabs (SFdiv prec emax x c) = SFabs (SFdiv prec emax x' c).
Proof.
  intros H. apply SFabs_same_shape in H.
  destruct x as [sx|sx| |sx mx ex], x' as [sx'|sx'| |sx' mx' ex']; try tauto;
    destruct c as [sc|sc| |sc mc ec]; try reflexivity.
  destruct H as [-> ->]. cbn [SFdiv].
  destruct (SFdiv_core_binary prec emax (Z.pos mx') ex' (Z.pos mc) ec)
    as [[mz ez] lz].
  apply binary_round_aux_abs.
Qed.

Lemma SFmul_square_abs (x x' : spec_float) :
  SFabs x = SFabs x' -> SFmul prec emax x x = SFmul prec emax x' x'.
Proof.
  intros H. apply SFabs_same_shape in H.
  destruct x as [sx|sx| |sx mx ex], x' as [sx'|sx'| |sx' mx' ex']; try tauto;
    cbn [SFmul]; rewrite ?xorb_nilpotent; try reflexivity.
  destruct H as [-> ->]. reflexivity.
Qed.

Local Open Scope float_scope.

Lemma abs_sub_swap (x y : float) : abs (x - y) = abs (y - x).
Proof.
  apply Prim2SF_inj. rewrite !abs_spec, !sub_spec. apply SFsub_swap_abs.
Qed.

Lemma abs_scaled_swap (a b c d : float) :
  abs ((a - b) * c / d) = abs ((b - a) * c / d).
Proof.
  apply Prim2SF_inj. rewrite !abs_spec, !div_spec, !mul_spec, !sub_spec.
  apply SFdiv_abs_l, SFmul_abs_l, SFsub_swap_abs.
Qed.

Lemma square_abs (d d' : float) : abs d = abs d' -> d * d = d' * d'.
Proof.
  intros H. apply Prim2SF_inj. rewrite !mul_spec.
  apply SFmul_square_abs. rewrite <- !abs_spec. now rewrite H.
Qed.

(** [<?] is transitive. *)
Lemma SFltb_trans (x y z : spec_float) :
  SFltb x y = true -> SFltb y z = true -> SFltb x z = true.
Proof.
  unfold SFltb.
  destruct x as [sx|sx| |sx mx ex], y as [sy|sy| |sy my ey],
    z as [sz|sz| |sz mz ez]; cbn [SFcompare];
    try solve [case_signs; cbn; congruence].
  rewrite !compare_cont_Eq_Z.
  destruct sx, sy, sz; try congruence;
    destruct (Z.compare_spec ex ey), (Z.compare_spec ey ez),
      (Z.compare_spec ex ez); try congruence; try lia;
    destruct (Z.compare_spec (Z.pos mx) (Z.pos my)),
      (Z.compare_spec (Z.pos my) (Z.pos mz)),
      (Z.compare_spec (Z.pos mx) (Z.pos mz)); cbn [CompOpp];
    try congruence; lia.
Qed.

Lemma ltb_trans (x y z : float) :
  (x <? y) = true -> (y <? z) = true -> (x <? z) = true.
Proof. rewrite !ltb_spec. apply SFltb_trans. Qed.

End Binary64Symmetry.

Set Implicit Arguments.

Import Binary64Symmetry.

(** ** Geometry *)

Section Geo.
Context {M : MathLib}.

(** X1. The angle at [p2] does not depend on the order in which the two
    outer points are given, for every [Math] library and all coordinates
    (NaN and infinities included). *)
Theorem calculateAngle_sym (p1 p2 p3 : Keypoint) :
  calculateAngle p1 p2 p3 = calculateAngle p3 p2 p1.
Proof.
  unfold calculateAngle. cbv zeta.
  set (a := Math_atan2 (kp_y p3 - kp_y p2) (kp_x p3 - kp_x p2)).
  set (b := Math_atan2 (kp_y p1 - kp_y p2) (kp_x p1 - kp_x p2)).
  now rewrite (abs_scaled_swap a b 180 Math_PI).
Qed.

(** X2. With a [Math.pow] whose squares depend on the magnitude only,
    the distance is symmetric. *)
Theorem calculateDistance_sym (p q : Keypoint) :
  pow2_even M -> calculateDistance p q = calculateDistance q p.
Proof.
  intros Hpow. unfold calculateDistance.
  rewrite (Hpow (kp_x q - kp_x p) (kp_x p - kp_x q)) by apply abs_sub_swap.
  rewrite (Hpow (kp_y q - kp_y p) (kp_y p - kp_y q)) by apply abs_sub_swap.
  reflexivity.
Qed.

(** X3. With [Math.pow(0, 2)] and [Math.sqrt(0)] equal to 0, as the
    standard prescribes, the distance from a point with finite
    coordinates to itself is 0. *)
Theorem calculateDistance_self (p : Keypoint) :
  exact_at_zero M -> finite_point p = true -> calculateDistance p p = 0.
Proof.
  intros [Hpow Hsqrt] Hp. unfold finite_point in Hp.
  apply andb_true_iff in Hp. destruct Hp as [Hx Hy].
  unfold calculateDistance.
  rewrite (Binary64Facts.sub_self _ (Binary64Facts.is_finite_finiteSF _ Hx)).
  rewrite (Binary64Facts.sub_self _ (Binary64Facts.is_finite_finiteSF _ Hy)).
  rewrite Hpow. change (0 + 0) with 0. exact Hsqrt.
Qed.

End Geo.

Lemma Reference_pow2_even : pow2_even Reference.math.
Proof.
  intros d d' H. cbn [Math_pow Reference.math]. unfold Reference.pow.
  change (2 =? 2) with true. cbv iota. now apply square_abs.
Qed.

Lemma Reference_exact_at_zero : exact_at_zero Reference.math.
Proof. split; reflexivity. Qed.

Lemma calculateDistance_sym_witness :
  let hip := Samples.kp 0.75 "left_hip" 80 200 in
  let knee := Samples.kp 0.75 "left_knee" 167 150 in
  @calculateDistance Reference.math hip knee =
  @calculateDistance Reference.math knee hip.
Proof.
  intros hip knee.
  apply (@calculateDistance_sym Reference.math hip knee).
  exact Reference_pow2_even.
Defined.

Lemma calculateDistance_self_witness :
  @calculateDistance Reference.math (Samples.kp 0.75 "left_knee" 167 150)
    (Samples.kp 0.75 "left_knee" 167 150) = 0.
Proof.
  apply (@calculateDistance_self Reference.math
           (Samples.kp 0.75 "left_knee" 167 150));
    [exact Reference_exact_at_zero | reflexivity].
Defined.

(** ** Detectors *)

Section Windows.
Context {M : MathLib}.

(** X4. [isMoving] reads the last 5 stored positions only and [isWaving]
    the last 10 stored wrist pairs only: dropping everything older
    changes neither result. *)
Theorem detectors_read_recent_window (positions : list Position)
    (wrists : list WristPair) (currentPos : Position) :
  isMoving (lastn 5 positions) currentPos = isMoving positions currentPos /\
  isWaving (lastn 10 wrists) = isWaving wrists.
Proof.
  split.
  - unfold isMoving.
    destruct (List.length positions <? 5)%nat eqn:Hlen.
    + pose proof Hlen as Hlt. apply Nat.ltb_lt in Hlt.
      rewrite lastn_all by lia. now rewrite Hlen.
    + rewrite (lastn_length_ge 5 positions Hlen).
      change (5 <? 5)%nat with false. cbv iota.
      rewrite !(Array_slice_neg 5). change (Pos.to_nat 5) with 5%nat.
      now rewrite lastn_lastn by lia.
  - unfold isWaving.
    destruct (List.length wrists <? 10)%nat eqn:Hlen.
    + pose proof Hlen as Hlt. apply Nat.ltb_lt in Hlt.
      rewrite lastn_all by lia. now rewrite Hlen.
    + rewrite (lastn_length_ge 10 wrists Hlen).
      change (10 <? 10)%nat with false. cbv iota.
      rewrite !(Array_slice_neg 10). change (Pos.to_nat 10) with 10%nat.
      now rewrite lastn_lastn by lia.
Qed.

End Windows.

Lemma sum_zeros (n : nat) : sum (repeat 0 n) = 0.
Proof.
  unfold sum. induction n as [|n IH]; [reflexivity|].
  cbn [repeat fold_left]. change (0 + 0) with 0. exact IH.
Qed.

Lemma absDeltas_constant (side : WristPair -> Position) (x : float)
    (samples : list WristPair) :
  is_finite x = true ->
  Forall (fun s => pos_x (side s) = x) samples ->
  absDeltas side pos_x samples = repeat 0 (List.length samples - 1).
Proof.
  intros Hx. assert (E : abs (x - x) = 0).
  { now rewrite (Binary64Facts.sub_self _ (Binary64Facts.is_finite_finiteSF _ Hx)). }
  unfold absDeltas.
  induction samples as [|a [|b t] IH]; intros H; try reflexivity.
  change (consecutive ?f (a :: b :: t)) with (f a b :: consecutive f (b :: t)).
  inversion H as [|? ? Ha H']; subst. inversion H' as [|? ? Hb _]; subst.
  rewrite (IH H'), Hb. cbn [List.length Nat.sub].
  rewrite E. rewrite Nat.sub_0_r. reflexivity.
Qed.

(** X5. Wrists whose horizontal coordinates stay put over the last 10
    samples never wave, however they move vertically. *)
Theorem vertical_motion_never_waves (xl xr : float)
    (history : list WristPair) :
  is_finite xl = true -> is_finite xr = true ->
  wristsKeepX xl xr (lastn 10 history) ->
  isWaving history = false.
Proof.
  intros Hl Hr Hkeep. unfold isWaving.
  destruct (List.length history <? 10)%nat eqn:Hlen; [reflexivity|].
  rewrite (Array_slice_neg 10 history). change (Pos.to_nat 10) with 10%nat.
  pose proof (lastn_length_ge 10 history Hlen) as H10.
  cbv zeta. rewrite !average_wristChanges by exact H10.
  assert (HL : Forall (fun s => pos_x (wp_left s) = xl) (lastn 10 history)).
  { eapply Forall_impl; [|exact Hkeep]. now intros s [H _]. }
  assert (HR : Forall (fun s => pos_x (wp_right s) = xr) (lastn 10 history)).
  { eapply Forall_impl; [|exact Hkeep]. now intros s [_ H]. }
  rewrite (absDeltas_constant wp_left Hl HL), (absDeltas_constant wp_right Hr HR).
  rewrite !sum_zeros. reflexivity.
Qed.

Lemma vertical_motion_never_waves_witness :
  isWaving
    (map (fun y => mkWristPair (mkPosition 70 y) (mkPosition 130 y))
       [40; 90; 40; 90; 40; 90; 40; 90; 40; 90; 40; 90]) = false.
Proof.
  apply (@vertical_motion_never_waves 70 130); [reflexivity|reflexivity|].
  repeat constructor.
Defined.

(** ** Frames and rules *)

(** X16. Every label but [Squatting] highlights exactly one of the
    rendered tiles; [Squatting] highlights none, since [activities] does
    not list it. *)
Theorem every_label_but_squatting_has_a_tile (current : Activity) :
  count_occ bool_dec (highlightedTiles current) true =
  if Activity_eqb current Squatting then 0%nat else 1%nat.
Proof. destruct current; reflexivity. Qed.

Lemma findKeypoint_app (l l' : list Keypoint) (name : string) :
  findKeypoint (l ++ l') name =
  match findKeypoint l name with
  | Some kp => Some kp
  | None => findKeypoint l' name
  end.
Proof.
  unfold findKeypoint, Array_find.
  induction l as [|a l IH]; [reflexivity|]. cbn [app find].
  destruct (name_is name a); [reflexivity|exact IH].
Qed.

Lemma findKeypoint_skip (extra : Keypoint) (l1 l2 : list Keypoint)
    (name : string) :
  name_is name extra = false ->
  findKeypoint (l1 ++ extra :: l2) name = findKeypoint (l1 ++ l2) name.
Proof.
  intros H. rewrite !findKeypoint_app.
  destruct (findKeypoint l1 name); [reflexivity|].
  unfold findKeypoint, Array_find. cbn [find]. now rewrite H.
Qed.

Lemma lookupSkeleton_ext (l l' : list Keypoint) :
  (forall name, In name requiredKeypoints ->
     findKeypoint l name = findKeypoint l' name) ->
  lookupSkeleton l = lookupSkeleton l'.
Proof.
  intros H. unfold lookupSkeleton.
  rewrite !H by (unfold requiredKeypoints; cbn [In]; tauto).
  reflexivity.
Qed.

Lemma lookupSkeleton_found (l : list Keypoint) (k : Skeleton) (name : string) :
  lookupSkeleton l = Some k -> In name requiredKeypoints ->
  exists kp, findKeypoint l name = Some kp.
Proof.
  intros Hk Hin. destruct (findKeypoint l name) as [kp|] eqn:E;
    [now exists kp|].
  rewrite (@lookupSkeleton_missing l name Hin E) in Hk. discriminate.
Qed.

Section Frames.
Context {M : MathLib}.
Variables (positions : list Position) (wrists : list WristPair).

Lemma determineActivity_lookup (l l' : list Keypoint) :
  lookupSkeleton l = lookupSkeleton l' ->
  determineActivity positions wrists l = determineActivity positions wrists l'.
Proof.
  intros H. destruct (lookupSkeleton l) as [k|] eqn:E.
  - rewrite (determineActivity_found _ _ _ E).
    symmetry in H. now rewrite (determineActivity_found _ _ _ H).
  - rewrite (determineActivity_missing _ _ _ E).
    symmetry in H. now rewrite (determineActivity_missing _ _ _ H).
Qed.

(** X9. A keypoint that carries none of the thirteen names the rules
    look up has no influence on the label, wherever it stands in the
    frame. *)
Theorem other_keypoints_are_ignored (extra : Keypoint)
    (l1 l2 : list Keypoint) :
  unnamed_for_rules extra ->
  determineActivity positions wrists (l1 ++ extra :: l2) =
  determineActivity positions wrists (l1 ++ l2).
Proof.
  intros H. apply determineActivity_lookup, lookupSkeleton_ext.
  intros name Hin. apply findKeypoint_skip. now apply H.
Qed.

(** X10. When a frame holds the thirteen keypoints, whatever follows it
    in the array is ignored: of two keypoints with one name the first is
    used. *)
Theorem first_occurrence_wins (l l' : list Keypoint) (k : Skeleton) :
  lookupSkeleton l = Some k ->
  determineActivity positions wrists (l ++ l') =
  determineActivity positions wrists l.
Proof.
  intros Hk. apply determineActivity_lookup, lookupSkeleton_ext.
  intros name Hin. rewrite findKeypoint_app.
  destruct (@lookupSkeleton_found l k name Hk Hin) as [kp ->]. reflexivity.
Qed.

Lemma knee_bent_not_straight (a bound : float) :
  (bound <=? 120) = true -> (a <? bound) = true -> gtb a 160 = false.
Proof.
  intros Hb Ha. unfold gtb. destruct (160 <? a) eqn:E; [|reflexivity].
  pose proof (ltb_trans _ _ _ E Ha) as H.
  rewrite ltb_spec in H. rewrite leb_spec in Hb.
  change (Prim2SF 160) with (S754_finite false 5629499534213120 (-45)) in H.
  change (Prim2SF 120) with (S754_finite false 8444249301319680 (-46)) in Hb.
  unfold SFltb, SFleb in *.
  destruct (Prim2SF bound) as [s|[|]| |[|] m e]; cbn [SFcompare] in *;
    try discriminate.
  rewrite Binary64Facts.compare_cont_Eq_Z in *.
  destruct (Z.compare_spec (-45) e), (Z.compare_spec e (-46));
    try discriminate; lia.
Qed.

(** X8. The Standing condition excludes the Squatting and the Sitting
    condition: a knee angle above 160 is not below 120. *)
Theorem standing_excludes_squatting_and_sitting (k : Skeleton) :
  isStanding k = true -> isSquatting k = false /\ isSitting k = false.
Proof.
  intros Hst. unfold isStanding in Hst.
  repeat (apply andb_true_iff in Hst; destruct Hst as [Hst ?]).
  split.
  - destruct (isSquatting k) eqn:Hsq; [|reflexivity].
    unfold isSquatting in Hsq.
    repeat (apply andb_true_iff in Hsq; destruct Hsq as [Hsq ?]).
    rewrite (@knee_bent_not_straight (leftKneeAngle k) 100 eq_refl Hsq) in Hst.
    discriminate.
  - destruct (isSitting k) eqn:Hsi; [|reflexivity].
    unfold isSitting in Hsi.
    repeat (apply andb_true_iff in Hsi; destruct Hsi as [Hsi ?]).
    rewrite (@knee_bent_not_straight (leftKneeAngle k) 120 eq_refl Hsi) in Hst.
    discriminate.
Qed.

End Frames.

(** ** The component *)

Lemma other_keypoints_are_ignored_witness :
  @determineActivity Reference.math [] []
    (Samples.kp 0.75 "nose" 100 40 :: Samples.kp 0.75 "left_eye" 95 35 ::
     tl (Samples.armsUp 0.75)) =
  @determineActivity Reference.math [] []
    (Samples.kp 0.75 "nose" 100 40 :: tl (Samples.armsUp 0.75)).
Proof.
  apply (@other_keypoints_are_ignored Reference.math [] []
           (Samples.kp 0.75 "left_eye" 95 35)
           [Samples.kp 0.75 "nose" 100 40] (tl (Samples.armsUp 0.75))).
  intros name Hin. unfold requiredKeypoints in Hin. cbn [In] in Hin.
  repeat (destruct Hin as [<-|Hin]; [reflexivity|]). destruct Hin.
Defined.

Lemma first_occurrence_wins_witness :
  @determineActivity Reference.math [] []
    (Samples.armsUp 0.75 ++ Samples.squatHeadUp) =
  @determineActivity Reference.math [] [] (Samples.armsUp 0.75).
Proof.
  apply (@first_occurrence_wins Reference.math [] [] (Samples.armsUp 0.75)
           Samples.squatHeadUp (Samples.skeletonOf (Samples.armsUp 0.75))).
  reflexivity.
Defined.

Lemma standing_excludes_squatting_and_sitting_witness :
  let k := Samples.skeletonOf (Samples.armsUp 0.75) in
  @isSquatting Reference.math k = false /\ @isSitting Reference.math k = false.
Proof.
  intros k.
  apply (@standing_excludes_squatting_and_sitting Reference.math k).
  vm_compute. reflexivity.
Defined.

Lemma head_up_is_never_squatting_witness :
  @determineActivity Reference.math [] [] Samples.squatHeadUp <> Squatting.
Proof.
  apply (@head_up_is_never_squatting Reference.math [] [] Samples.squatHeadUp
           (Samples.skeletonOf Samples.squatHeadUp));
    vm_compute; reflexivity.
Defined.

Section Machine.
Context {M : MathLib}.

Lemma run_app (e1 e2 : list Event) :
  run (e1 ++ e2) = fold_left step e2 (run e1).
Proof. unfold run. apply fold_left_app. Qed.

Lemma run_snoc (events : list Event) (ev : Event) :
  run (events ++ [ev]) = step (run events) ev.
Proof. now rewrite run_app. Qed.

Lemma poseTicks_snoc (events : list Event) (ev : Event) :
  poseTicks (events ++ [ev]) =
  (poseTicks events + if isPoseTick ev then 1 else 0)%nat.
Proof.
  unfold poseTicks. rewrite filter_app, length_app. cbn [filter].
  destruct (isPoseTick ev); reflexivity.
Qed.

(** How [detectPose] can change the state: not at all, by clearing
    [hasVideoStream], or by recording a frame. *)
Lemma detectPose_cases (webcam : WebcamRef) (estimate : Estimate)
    (st : AppState) :
  detectPose webcam estimate st = st \/
  (detector st = true /\ isWebcamReady st = true /\ hasVideoStream st = true /\
   match estimate with
   | Throws => detectPose webcam estimate st = setHasVideoStream false st
   | Poses pose =>
       exists keypoints,
         poseAccepted pose = Some keypoints /\
         detectPose webcam estimate st = recordPose keypoints st
   end).
Proof.
  unfold detectPose.
  destruct (detector st); cbn [negb]; [|now left].
  destruct webcam as [[video|]|]; try (now left).
  destruct (isWebcamReady st); cbn [negb orb]; [|now left].
  destruct (hasVideoStream st); cbn [negb]; [|now left].
  destruct (negb (readyState video =? 4)%Z || (videoWidth video =? 0)%Z
            || (videoHeight video =? 0)%Z); [now left|].
  destruct estimate as [pose|]; [|right; now repeat split].
  destruct (poseAccepted pose) as [keypoints|] eqn:E; [|now left].
  right. repeat split. now exists keypoints.
Qed.

Lemma determineActivity_Movement (positions : list Position)
    (wrists : list WristPair) (keypoints : list Keypoint) :
  determineActivity positions wrists keypoints = Movement ->
  (5 <= List.length positions)%nat.
Proof.
  unfold determineActivity.
  destruct (List.length keypoints =? 0)%nat; [discriminate|].
  destruct (lookupSkeleton keypoints) as [k|]; [|discriminate].
  unfold classifySkeleton, isMoving.
  destruct (armsRaised k); [discriminate|].
  destruct (isWaving wrists); [discriminate|].
  destruct (isSquatting k); [discriminate|].
  destruct (isSitting k); [discriminate|].
  destruct (List.length positions <? 5)%nat eqn:E.
  - destruct (isStanding k); discriminate.
  - intros _. now apply Nat.ltb_ge in E.
Qed.

Lemma determineActivity_Waving (positions : list Position)
    (wrists : list WristPair) (keypoints : list Keypoint) :
  determineActivity positions wrists keypoints = Waving ->
  (10 <= List.length wrists)%nat.
Proof.
  unfold determineActivity.
  destruct (List.length keypoints =? 0)%nat; [discriminate|].
  destruct (lookupSkeleton keypoints) as [k|]; [|discriminate].
  unfold classifySkeleton, isWaving.
  destruct (armsRaised k); [discriminate|].
  destruct (List.length wrists <? 10)%nat eqn:E.
  - destruct (isSquatting k), (isSitting k),
      (isMoving positions (mkPosition (kp_x (nose k)) (kp_y (nose k)))),
      (isStanding k); discriminate.
  - intros _. now apply Nat.ltb_ge in E.
Qed.

Lemma pushPosition_length_le (n : Keypoint) (prev : list Position) :
  (List.length (pushPosition n prev) <= S (List.length prev))%nat.
Proof.
  rewrite pushPosition_eq, length_app, lastn_length. cbn [List.length]. lia.
Qed.

Lemma pushWrists_length_le (lw rw : Keypoint) (prev : list WristPair) :
  (List.length (pushWrists lw rw prev) <= S (List.length prev))%nat.
Proof.
  rewrite pushWrists_eq, length_app, lastn_length. cbn [List.length]. lia.
Qed.

Lemma recordPose_cold_start (keypoints : list Keypoint) (n : nat)
    (st : AppState) :
  cold_start_inv n st -> cold_start_inv (S n) (recordPose keypoints st).
Proof.
  intros [Hp [Hw [Hm Hv]]]. unfold cold_start_inv, recordPose.
  cbn [previousPositions wristPositions currentActivity]. repeat split.
  - destruct (findKeypoint keypoints "nose"); [|lia].
    pose proof (pushPosition_length_le k (previousPositions st)). lia.
  - destruct (findKeypoint keypoints "left_wrist");
      [destruct (findKeypoint keypoints "right_wrist")|]; try lia.
    pose proof (pushWrists_length_le k k0 (wristPositions st)). lia.
  - intros H. apply determineActivity_Movement in H. lia.
  - intros H. apply determineActivity_Waving in H. lia.
Qed.

Lemma step_cold_start (n : nat) (st : AppState) (ev : Event) :
  cold_start_inv n st ->
  cold_start_inv (n + if isPoseTick ev then 1 else 0) (step st ev).
Proof.
  intros H. destruct ev as [| |webcam|webcam estimate]; cbn [step isPoseTick];
    rewrite ?Nat.add_0_r.
  - exact H.
  - exact H.
  - unfold checkVideoStream. destruct webcam as [[video|]|]; try exact H.
    destruct ((readyState video =? 4)%Z && (0 <? videoWidth video)%Z
              && (0 <? videoHeight video)%Z); exact H.
  - replace (n + 1)%nat with (S n) by lia.
    assert (Hweak : cold_start_inv (S n) st).
    { destruct H as [Hp [Hw [Hm Hv]]]. unfold cold_start_inv.
      repeat split; try lia; intros E; [specialize (Hm E)|specialize (Hv E)];
        lia. }
    destruct (detectPose_cases webcam estimate st) as [->|[_ [_ [_ Hc]]]];
      [exact Hweak|].
    destruct estimate as [pose|]; [destruct Hc as [keypoints [_ ->]]|rewrite Hc].
    + now apply recordPose_cold_start.
    + exact Hweak.
Qed.

Lemma run_cold_start (events : list Event) :
  cold_start_inv (poseTicks events) (run events).
Proof.
  induction events as [|ev events IH] using rev_ind.
  - unfold cold_start_inv. cbn. repeat split; try lia; discriminate.
  - rewrite run_snoc, poseTicks_snoc. now apply step_cold_start.
Qed.

(** X11. The label is not [Movement] before the sixth call of
    [detectPose] and not [Waving] before the eleventh, in every run of
    the component. *)
Theorem cold_start_labels (events : list Event) :
  ((poseTicks events <? 6)%nat
   && Activity_eqb (currentActivity (run events)) Movement = false) /\
  ((poseTicks events <? 11)%nat
   && Activity_eqb (currentActivity (run events)) Waving = false).
Proof.
  destruct (run_cold_start events) as [_ [_ [Hm Hv]]]. split.
  - destruct (poseTicks events <? 6)%nat eqn:E; [|reflexivity].
    apply Nat.ltb_lt in E. cbn [andb].
    destruct (currentActivity (run events)); try reflexivity.
    specialize (Hm eq_refl). lia.
  - destruct (poseTicks events <? 11)%nat eqn:E; [|reflexivity].
    apply Nat.ltb_lt in E. cbn [andb].
    destruct (currentActivity (run events)); try reflexivity.
    specialize (Hv eq_refl). lia.
Qed.

(** Nothing is classified or recorded before the model is loaded and the
    webcam has reported its stream. *)
Lemma step_started (st : AppState) (ev : Event) :
  implb (started st) (detector st && isWebcamReady st) = true ->
  implb (started (step st ev)) (detector (step st ev) && isWebcamReady (step st ev)) = true.
Proof.
  intros H. destruct ev as [| |webcam|webcam estimate]; cbn [step].
  - unfold loadModel, started in *. cbn in *.
    destruct (_ || _ || _); [|reflexivity]. cbn in *.
    apply andb_true_iff in H. now destruct H as [_ ->].
  - unfold setIsWebcamReady, started in *. cbn in *.
    destruct (_ || _ || _); [|reflexivity]. cbn in *.
    apply andb_true_iff in H. destruct H as [-> _]. reflexivity.
  - unfold checkVideoStream. destruct webcam as [[video|]|]; try exact H.
    destruct ((readyState video =? 4)%Z && (0 <? videoWidth video)%Z
              && (0 <? videoHeight video)%Z); exact H.
  - destruct (detectPose_cases webcam estimate st) as [->|[Hd [Hr [_ Hc]]]];
      [exact H|].
    destruct estimate as [pose|]; [destruct Hc as [keypoints [_ ->]]|rewrite Hc].
    + unfold recordPose. cbn [detector isWebcamReady].
      rewrite Hd, Hr. apply implb_true_r.
    + exact H.
Qed.

(** X12. In every run, as long as the model is not loaded or the webcam
    has not reported its stream, the label is [Stable] and both
    histories are empty. *)
Theorem nothing_recorded_before_ready (events : list Event) :
  implb (started (run events))
        (detector (run events) && isWebcamReady (run events)) = true.
Proof.
  induction events as [|ev events IH] using rev_ind; [reflexivity|].
  rewrite run_snoc. now apply step_started.
Qed.



End Machine.


Section Machine2.
Context {M : MathLib}.

(** X14. [detectPose] looks at the first pose only, and only when its
    score exceeds 0.3: otherwise, and with no pose at all, the state is
    unchanged. *)
Theorem only_first_usable_pose_counts (webcam : WebcamRef) (p : Pose)
    (rest : list Pose) (st : AppState) :
  detectPose webcam (Poses (p :: rest)) st =
    (if usablePose p then detectPose webcam (Poses [p]) st else st) /\
  detectPose webcam (Poses []) st = st.
Proof.
  split.
  - change (detectPose webcam (Poses (p :: rest)) st)
      with (detectPose webcam (Poses [p]) st).
    destruct (usablePose p) eqn:Hu; [reflexivity|].
    destruct (detectPose_cases webcam (Poses [p]) st)
      as [E|[_ [_ [_ [keypoints [Ha _]]]]]]; [exact E|].
    unfold poseAccepted in Ha. unfold usablePose in Hu.
    destruct (pose_score p); [rewrite Hu in Ha|]; discriminate.
  - destruct (detectPose_cases webcam (Poses []) st)
      as [E|[_ [_ [_ [keypoints [Ha _]]]]]]; [exact E|discriminate].
Qed.

Lemma pushPosition_grows (n : Keypoint) (prev : list Position) :
  (List.length prev <= 10)%nat ->
  (List.length prev <= List.length (pushPosition n prev))%nat.
Proof.
  intros H. rewrite pushPosition_eq, length_app, lastn_length.
  cbn [List.length]. lia.
Qed.

Lemma pushWrists_grows (lw rw : Keypoint) (prev : list WristPair) :
  (List.length prev <= 20)%nat ->
  (List.length prev <= List.length (pushWrists lw rw prev))%nat.
Proof.
  intros H. rewrite pushWrists_eq, length_app, lastn_length.
  cbn [List.length]. lia.
Qed.

Lemma step_not_shorter (st : AppState) (ev : Event) :
  within_capacity st -> not_shorter st (step st ev).
Proof.
  intros [Hp Hw]. unfold not_shorter.
  destruct ev as [| |webcam|webcam estimate]; cbn [step].
  - cbn. lia.
  - cbn. lia.
  - unfold checkVideoStream. destruct webcam as [[video|]|]; cbn; try lia.
    destruct ((readyState video =? 4)%Z && (0 <? videoWidth video)%Z
              && (0 <? videoHeight video)%Z); cbn; lia.
  - destruct (detectPose_cases webcam estimate st) as [->|[_ [_ [_ Hc]]]];
      [lia|].
    destruct estimate as [pose|]; [destruct Hc as [keypoints [_ ->]]|rewrite Hc];
      [|cbn; lia].
    unfold recordPose. cbn [previousPositions wristPositions]. split.
    + destruct (findKeypoint keypoints "nose"); [|lia].
      now apply pushPosition_grows.
    + destruct (findKeypoint keypoints "left_wrist");
        [destruct (findKeypoint keypoints "right_wrist")|]; try lia.
      now apply pushWrists_grows.
Qed.

Lemma fold_step_not_shorter (events : list Event) (st : AppState) :
  within_capacity st -> not_shorter st (fold_left step events st).
Proof.
  revert st. induction events as [|ev events IH]; intros st H; cbn [fold_left].
  - unfold not_shorter. lia.
  - pose proof (step_not_shorter ev H) as [H1 H2].
    pose proof (IH _ (step_within_capacity ev H)) as [H3 H4].
    unfold not_shorter. lia.
Qed.

(** X15. Along every run the two histories never get shorter. *)
Theorem histories_never_shrink (e1 e2 : list Event) :
  (List.length (previousPositions (run e1)) <=
   List.length (previousPositions (run (e1 ++ e2))))%nat /\
  (List.length (wristPositions (run e1)) <=
   List.length (wristPositions (run (e1 ++ e2))))%nat.
Proof.
  rewrite run_app. apply fold_step_not_shorter.
  apply (fold_step_within_capacity e1). split; cbn; lia.
Qed.

(** X6. A nose that stays at one finite position over the last 5
    samples is never moving. *)
Theorem still_nose_is_not_movement (p : Position) (history : list Position)
    (currentPos : Position) :
  exact_at_zero M ->
  is_finite (pos_x p) = true -> is_finite (pos_y p) = true ->
  Forall (fun s => s = p) (lastn 5 history) ->
  isMoving history currentPos = false.
Proof.
  intros [Hpow Hsqrt] Hx Hy Hall. unfold isMoving.
  destruct (List.length history <? 5)%nat eqn:Hlen; [reflexivity|].
  rewrite (Array_slice_neg 5 history). change (Pos.to_nat 5) with 5%nat.
  pose proof (lastn_length_ge 5 history Hlen) as H5.
  destruct (lastn 5 history) as [|s0 recent]; [discriminate|].
  list_of_length recent.
  repeat match goal with
         | H : Forall _ (_ :: _) |- _ =>
             let E := fresh "E" in
             inversion H as [|? ? E ?]; clear H; subst
         end.
  unfold Array_reduce. cbn [reduce_from Nat.eqb Nat.sub nth List.length].
  rewrite (Binary64Facts.sub_self _ (Binary64Facts.is_finite_finiteSF _ Hx)).
  rewrite (Binary64Facts.sub_self _ (Binary64Facts.is_finite_finiteSF _ Hy)).
  rewrite Hpow. change (0 + 0) with 0. rewrite Hsqrt. reflexivity.
Qed.

End Machine2.

Lemma still_nose_is_not_movement_witness :
  @isMoving Reference.math (repeat (mkPosition 100 40) 7) (mkPosition 300 300)
  = false.
Proof.
  apply (@still_nose_is_not_movement Reference.math (mkPosition 100 40));
    [exact Reference_exact_at_zero|reflexivity|reflexivity|].
  repeat constructor.
Defined.
